(** * Shallow embedding of the link resolver in [src/app.py]

    The Selenium browser is an external collaborator: every value the code
    reads from it (elements found by a locator, attribute and text reads,
    the URL after a redirect, whether a click went through) is an input of
    the model, and every read that Selenium may abort with an exception is
    typed [res A].  Python strings are modelled as Rocq [string]s over
    ASCII characters. *)

From stdpp Require Import base gmap sets list strings.
From Stdlib Require Import ZArith Ascii String.

Open Scope Z_scope.

(* ================================================================== *)
(** ** Exceptions and the result of a browser read *)

(** The exception classes the code distinguishes.  In Selenium
    [StaleElementReferenceException] is a subclass of
    [WebDriverException]. *)
Inductive exn :=
  | StaleElementReference
  | WebDriverError
  | OtherError.

(** A browser call either returns a value or raises. *)
Inductive res (A : Type) :=
  | Ret (a : A)
  | Raise (e : exn).
Arguments Ret {A} a.
Arguments Raise {A} e.

Global Instance res_ret : MRet res := @Ret.
Global Instance res_bind : MBind res := fun A B (k : A -> res B) (m : res A) =>
  match m with
  | Ret a => k a
  | Raise e => Raise e
  end.

(** [try: ... except Exception: pass] around a block that may [return]
    a URL: a raise falls through as "no result". *)
Definition guard (r : res (option string)) : option string :=
  match r with
  | Ret o => o
  | Raise _ => None
  end.

(* ================================================================== *)
(** ** Python string operations over ASCII *)

Module Py.

(** Python truthiness of an attribute value ([None] or the empty string is falsy). *)
Definition truthy (o : option string) : bool :=
  match o with
  | Some s => negb (String.eqb s EmptyString)
  | None => false
  end.

(** [x or <empty string>] *)
Definition or_empty (o : option string) : string :=
  match o with
  | Some s => s
  | None => EmptyString
  end.

(** [str.isspace] on ASCII: tab, newline, vertical tab, form feed,
    carriage return, the separators 0x1c-0x1f and the space. *)
Definition is_space (c : ascii) : bool :=
  let n := nat_of_ascii c in
  ((9 <=? n) && (n <=? 13))%nat || ((28 <=? n) && (n <=? 32))%nat.

Fixpoint lstrip (s : string) : string :=
  match s with
  | EmptyString => EmptyString
  | String c t => if is_space c then lstrip t else s
  end.

Fixpoint rev_str (s : string) (acc : string) : string :=
  match s with
  | EmptyString => acc
  | String c t => rev_str t (String c acc)
  end.

Definition rstrip (s : string) : string :=
  rev_str (lstrip (rev_str s EmptyString)) EmptyString.

(** [str.strip()] *)
Definition strip (s : string) : string := rstrip (lstrip s).

(** [str.lower()] on ASCII letters. *)
Definition lower_char (c : ascii) : ascii :=
  let n := nat_of_ascii c in
  if ((65 <=? n) && (n <=? 90))%nat then ascii_of_nat (n + 32) else c.

Fixpoint lower (s : string) : string :=
  match s with
  | EmptyString => EmptyString
  | String c t => String (lower_char c) (lower t)
  end.

(** [s.startswith(p)] *)
Definition startswith (s p : string) : bool := String.prefix p s.

(** [s[n:]] *)
Fixpoint sdrop (n : nat) (s : string) : string :=
  match n, s with
  | O, _ => s
  | S _, EmptyString => EmptyString
  | S m, String _ t => sdrop m t
  end.

(** First position [>= pos] (counted in the whole string) where [needle]
    occurs in [s], which is the suffix of the string starting at [pos]. *)
Fixpoint find_aux (needle s : string) (pos : nat) : option nat :=
  if String.prefix needle s then Some pos
  else match s with
       | EmptyString => None
       | String _ t => find_aux needle t (S pos)
       end.

(** [s.find(needle, start)], with Python's [-1] for "absent". *)
Definition find_from (s needle : string) (start : Z) : Z :=
  match find_aux needle (sdrop (Z.to_nat start) s) (Z.to_nat start) with
  | Some i => Z.of_nat i
  | None => -1
  end.

(** [needle in s] *)
Definition contains (needle s : string) : bool :=
  match find_aux needle s 0 with
  | Some _ => true
  | None => false
  end.

(** [s[i:j]] for [0 <= i] and [0 <= j] (the only slices the code takes). *)
Definition slice (s : string) (i j : Z) : string :=
  substring (Z.to_nat i) (Z.to_nat j - Z.to_nat i) s.

(** [len(s)] *)
Definition len (s : string) : Z := Z.of_nat (String.length s).

(** The one-character string made of a double quote. *)
Definition dquote : string := String (ascii_of_nat 34) EmptyString.

End Py.

(* ================================================================== *)
(** ** Page state seen through the browser *)

(** A located element: [get_attribute(name)] and [.text]. *)
Record Elem := {
  attr : string -> res (option string);
  text : res string;
}.

(** The lookups [find_get_link] and the heuristic anchor pass make:
    [find_element(By.ID, _)] (raises when absent), and
    [find_elements] with the class selector
    ["a.get-link, .get-link, a.btn.get-link"], with the case-insensitive
    ["get link"] XPath over anchors and buttons, and with tag ["a"]. *)
Record Page := {
  by_id : string -> res Elem;
  by_class : res (list Elem);
  by_text : res (list Elem);
  by_tag_a : res (list Elem);
}.

(* ================================================================== *)
(** ** [find_get_link] *)

Module Extract.
Import Py.

(** [el = driver.find_element(By.ID, id); href = el.get_attribute("href");
     if href: return href] *)
Definition try_id (p : Page) (id : string) : res (option string) :=
  el ← by_id p id;
  href ← attr el "href";
  mret (if truthy href then href else None).

(** [for e in els: href = e.get_attribute("href"); if href: return href] *)
Fixpoint first_href (els : list Elem) : res (option string) :=
  match els with
  | [] => mret None
  | e :: rest =>
      href ← attr e "href";
      if truthy href then mret href else first_href rest
  end.

Definition try_class (p : Page) : res (option string) :=
  els ← by_class p;
  first_href els.

(** The naive extraction of a URL from an [onclick] handler. *)
Definition onclick_url (onclick : string) : string :=
  let start := find_from onclick "http" 0 in
  let end1 := find_from onclick "'" start in
  let end2 := if Z.eqb end1 (-1) then find_from onclick dquote start else end1 in
  let end3 := if Z.eqb end2 (-1) then len onclick else end2 in
  slice onclick start end3.

Fixpoint text_scan (els : list Elem) : res (option string) :=
  match els with
  | [] => mret None
  | e :: rest =>
      href ← attr e "href";
      if truthy href then mret href
      else
        oc ← attr e "onclick";
        let onclick := or_empty oc in
        if contains "http" onclick then mret (Some (onclick_url onclick))
        else text_scan rest
  end.

Definition try_text (p : Page) : res (option string) :=
  els ← by_text p;
  text_scan els.

(** Body of [for a in anchors[::-1]] (called on the reversed list). *)
Fixpoint rev_scan (anchors : list Elem) : res (option string) :=
  match anchors with
  | [] => mret None
  | a :: rest =>
      h ← attr a "href";
      let href := or_empty h in
      t ← text a;
      let txt := lower (strip t) in
      if String.eqb href EmptyString then rev_scan rest
      else if contains "telegram" href || contains "t.me" href || contains "http" href then
        if contains "get link" txt || negb (String.eqb txt EmptyString)
        then mret (Some href) else rev_scan rest
      else rev_scan rest
  end.

(** [for a in anchors: ... if href.startswith("http") and len(href) > 20] *)
Fixpoint fwd_scan (anchors : list Elem) : res (option string) :=
  match anchors with
  | [] => mret None
  | a :: rest =>
      h ← attr a "href";
      let href := or_empty h in
      if startswith href "http" && Z.ltb 20 (len href) then mret (Some href)
      else fwd_scan rest
  end.

(** The last [try] block: both anchor scans share one guard. *)
Definition try_anchors (p : Page) : res (option string) :=
  anchors ← by_tag_a p;
  r ← rev_scan (rev anchors);
  match r with
  | Some href => mret (Some href)
  | None => fwd_scan anchors
  end.

Definition find_get_link (p : Page) : option string :=
  match guard (try_id p "get-link") with Some h => Some h | None =>
  match guard (try_id p "gt-link") with Some h => Some h | None =>
  match guard (try_class p) with Some h => Some h | None =>
  match guard (try_text p) with Some h => Some h | None =>
  match guard (try_anchors p) with Some h => Some h | None =>
  None end end end end end.

(** The guarded blocks of [find_get_link], in source order. *)
Definition first_success (rs : list (option string)) : option string :=
  foldr (fun o acc => match o with Some h => Some h | None => acc end) None rs.

Definition blocks (p : Page) : list (option string) :=
  [guard (try_id p "get-link"); guard (try_id p "gt-link");
   guard (try_class p); guard (try_text p); guard (try_anchors p)].

(** A block that yields a URL yields a non-empty one. *)
Definition nonempty_res (r : res (option string)) : Prop :=
  forall h, r = Ret (Some h) -> h <> EmptyString.

End Extract.

(* ================================================================== *)
(** ** [wait_for_countdown_zero] *)

Module Countdown.
Import Py.

(** [ch.isdigit()] on ASCII text: true exactly on ['0'] to ['9']. The
    page texts of this model are ASCII; on other Unicode text Python's
    [isdigit] also accepts characters such as a superscript two, which
    [int()] then rejects, and such text is outside the model. *)
Definition is_digit (c : ascii) : bool :=
  let n := nat_of_ascii c in ((48 <=? n) && (n <=? 57))%nat.

Definition is_minus (c : ascii) : bool := Ascii.eqb c "-"%char.

(** [digits = "".join(ch for ch in text if ch.isdigit() or ch == "-")] *)
Fixpoint keep_digits (s : string) : string :=
  match s with
  | EmptyString => EmptyString
  | String c t =>
      if is_digit c || is_minus c then String c (keep_digits t) else keep_digits t
  end.

Fixpoint digits_value (s : string) (acc : Z) : option Z :=
  match s with
  | EmptyString => Some acc
  | String c t =>
      if is_digit c then digits_value t (10 * acc + (Z.of_nat (nat_of_ascii c) - 48))
      else None
  end.

(** [int(digits)] on a string made of digits and ['-'] only: an optional
    leading ['-'] then at least one digit; anything else raises
    [ValueError] ([None]). *)
Definition py_int (s : string) : option Z :=
  match s with
  | String c t =>
      if is_minus c then
        match t with
        | EmptyString => None
        | _ => option_map Z.opp (digits_value t 0)
        end
      else digits_value s 0
  | EmptyString => None
  end.

(** [text = el.text.strip()], the digit filter, the empty check and
    [int(digits)] under [try ... except Exception: continue]. *)
Definition parse_countdown (raw : string) : option Z :=
  let digits := keep_digits (strip raw) in
  if String.eqb digits EmptyString then None else py_int digits.

(** The outcome of the element loop of one selector: [return True]
    reached, or the loop left (finished, or aborted by an exception
    other than a stale element, which the selector's handler catches).
    The list is the log of the [num]s shown so far. *)
Inductive elem_scan :=
  | EReached (lg : list Z)
  | EDone (lg : list Z).

Fixpoint scan_elems (els : list (res string)) (lg : list Z) : elem_scan :=
  match els with
  | [] => EDone lg
  | Raise StaleElementReference :: rest => scan_elems rest lg
  | Raise _ :: _ => EDone lg
  | Ret raw :: rest =>
      match parse_countdown raw with
      | None => scan_elems rest lg
      | Some num =>
          let lg' := lg ++ [num] in
          if Z.leb num 0 then EReached lg' else scan_elems rest lg'
      end
  end.

Inductive cycle_res :=
  | CReached (lg : list Z)
  | CDone (found_any : bool) (lg : list Z).

(** One pass of [for by, val in selectors]: each entry is the result of
    [driver.find_elements(by, val)], listing the [el.text] of each element. *)
Fixpoint scan_selectors (sels : list (res (list (res string))))
    (found_any : bool) (lg : list Z) : cycle_res :=
  match sels with
  | [] => CDone found_any lg
  | Raise _ :: rest => scan_selectors rest found_any lg
  | Ret [] :: rest => scan_selectors rest found_any lg
  | Ret els :: rest =>
      match scan_elems els lg with
      | EReached lg' => CReached lg'
      | EDone lg' => scan_selectors rest true lg'
      end
  end.

(** The page as the detector sees it: what the selectors return on poll
    cycle [n], and how many seconds the lookups of cycle [n] take. *)
Record Gate := {
  poll : nat -> list (res (list (res string)));
  lookup_time : nat -> nat;
}.

(** Result, log of shown numbers, and number of [time.sleep(1)] calls. *)
Record wait_out := { waited : bool; shown : list Z; sleeps : nat }.

(** [while time.time() - start < timeout]: [elapsed] is the time since
    [start]; a cycle costs its lookup time plus the one-second sleep.
    Every cycle that loops advances the clock, so [fuel = timeout] never
    runs out before the time check does. *)
Fixpoint poll_loop (g : Gate) (timeout : nat) (fuel n elapsed : nat)
    (lg : list Z) (sl : nat) : wait_out :=
  match fuel with
  | O => {| waited := false; shown := lg; sleeps := sl |}
  | S f =>
      if (elapsed <? timeout)%nat then
        match scan_selectors (poll g n) false lg with
        | CReached lg' => {| waited := true; shown := lg'; sleeps := sl |}
        | CDone false lg' => {| waited := false; shown := lg'; sleeps := sl |}
        | CDone true lg' =>
            poll_loop g timeout f (S n) (elapsed + lookup_time g n + 1) lg' (S sl)
        end
      else {| waited := false; shown := lg; sleeps := sl |}
  end.

Definition wait_for_countdown_zero (g : Gate) (timeout : nat) : wait_out :=
  poll_loop g timeout timeout 0 0 [] 0.

(** No selector of a poll cycle located any element. *)
Definition no_match (sels : list (res (list (res string)))) : bool :=
  forallb (fun r => match r with Ret (_ :: _) => false | _ => true end) sels.

(** Every number logged so far is positive. *)
Definition all_pos (lg : list Z) : Prop := Forall (fun z => 0 < z) lg.

End Countdown.

(* ================================================================== *)
(** ** [resolve_link_flow] *)

Module Flow.
Import Py.

(** Which locator of a Verify/Continue pair clicked, if any:
    [element_click_if_present] by id, else [click_button_by_text]. *)
Inductive click_result :=
  | NoClick
  | ClickedById
  | ClickedByText.

Definition did_click (c : click_result) : bool :=
  match c with NoClick => false | _ => true end.

(** What the browser shows during one step, after
    [driver.get(current_url)]. *)
Record StepObs := {
  nav : res unit;                  (* [driver.get(current_url)] *)
  countdown_waited : bool;         (* [wait_for_countdown_zero(...)] *)
  verify_click : click_result;     (* id ["btn6"], else text ["Verify"] *)
  continue_click : click_result;   (* id ["btn7"], else text ["Continue"] *)
  landed : res string;             (* [driver.current_url] after the settle delay *)
  page : Page;                     (* page read by [find_get_link] and the anchor pass *)
  timer_text : res string;         (* [driver.find_element(By.ID, "timer").text] *)
  timer_page : Page;               (* page read by the second [find_get_link] *)
  next_click : bool;               (* [click_button_by_text(driver, "Next")] *)
  proceed_click : bool;            (* [click_button_by_text(driver, "Proceed")] *)
}.

(** The browser as the loop sees it: the observations of step [k]
    opening [url]. *)
Definition Env := nat -> string -> StepObs.

(** The lines [safe_log] writes during the loop. *)
Inductive log_line :=
  | LOpen (step : nat) (url : string)
  | LNavException
  | LCountdownHandled
  | LClicked (what : string)
  | LRedirected (prev new : string)
  | LRepeated
  | LFound (url : string)
  | LTimerZero
  | LNextHeuristic
  | LProceedHeuristic
  | LFollow (href txt : string)
  | LNoActionable
  | LFlowException.

Record Session := {
  current_url : string;
  visited : gset string;
  final_link : option string;
  log : list log_line;
}.

Definition init (start_url : string) : Session :=
  {| current_url := start_url; visited := ∅; final_link := None; log := [] |}.

Definition say (s : Session) (l : log_line) : Session :=
  {| current_url := current_url s; visited := visited s;
     final_link := final_link s; log := log s ++ [l] |}.

Definition set_url (s : Session) (u : string) : Session :=
  {| current_url := u; visited := visited s;
     final_link := final_link s; log := log s |}.

Definition add_visited (s : Session) (u : string) : Session :=
  {| current_url := current_url s; visited := {[u]} ∪ visited s;
     final_link := final_link s; log := log s |}.

Definition set_final (s : Session) (u : string) : Session :=
  {| current_url := current_url s; visited := visited s;
     final_link := Some u; log := log s |}.

(** How a run ends. *)
Inductive outcome :=
  | Found (url : string)
  | LoopDetected
  | DeadEnd           (* "No actionable element found" *)
  | BudgetExhausted   (* [range(max_steps)] ran out *)
  | Fatal.            (* caught by the outer [except Exception] *)

(** Why a step ends with [continue]. *)
Inductive cont_reason :=
  | ByRedirect
  | ByNext
  | ByProceed
  | ByFollow.

Inductive step_result :=
  | Continue (s : Session) (why : cont_reason)
  | Stop (s : Session) (o : outcome).

(** The heuristic anchor pass (not inside a [try]). *)
Fixpoint follow_scan (anchors : list Elem) : res (option (string * string)) :=
  match anchors with
  | [] => mret None
  | a :: rest =>
      h ← attr a "href";
      let href := or_empty h in
      t ← text a;
      let txt := lower (strip t) in
      if negb (String.eqb href EmptyString) &&
         (contains "/readmore" href || contains "continue" href ||
          bool_decide (txt ∈ ["continue"; "read more"; "get link"; "get-link"]))
      then mret (Some (href, txt))
      else follow_scan rest
  end.

Definition heuristic_follow (p : Page) : res (option (string * string)) :=
  anchors ← by_tag_a p;
  follow_scan anchors.

(** From the timer check on: the timer check, the Next/Proceed fallback
    and the heuristic anchor pass. *)
Definition after_extraction (o : StepObs) (clicked : bool) (s : Session) : step_result :=
  let '(s, timer_hit) :=
    match timer_text o with
    | Ret raw =>
        let tt := strip raw in
        if String.eqb tt "0" || String.eqb tt EmptyString then
          let s := say s LTimerZero in
          let candidate := Extract.find_get_link (timer_page o) in
          if truthy candidate then (s, candidate) else (s, None)
        else (s, None)
    | Raise _ => (s, None)
    end in
  match timer_hit with
  | Some c => Stop (say (set_final s c) (LFound c)) (Found c)
  | None =>
      if negb clicked && next_click o then Continue (say s LNextHeuristic) ByNext
      else if negb clicked && proceed_click o then Continue (say s LProceedHeuristic) ByProceed
      else
        match heuristic_follow (page o) with
        | Raise _ => Stop (say s LFlowException) Fatal
        | Ret (Some (href, txt)) => Continue (set_url (say s (LFollow href txt)) href) ByFollow
        | Ret None => Stop (say s LNoActionable) DeadEnd
        end
  end.

Definition click_log (c : click_result) (by_id by_text : string) (s : Session) : Session :=
  match c with
  | NoClick => s
  | ClickedById => say s (LClicked by_id)
  | ClickedByText => say s (LClicked by_text)
  end.

(** One iteration of [for step in range(max_steps)], step index [k]. *)
Definition step (o : StepObs) (k : nat) (s : Session) : step_result :=
  let s := say s (LOpen (S k) (current_url s)) in
  match nav o with
  | Raise OtherError => Stop (say s LFlowException) Fatal
  | _ =>
  let s := match nav o with Ret _ => s | Raise _ => say s LNavException end in
  let s := if countdown_waited o then say s LCountdownHandled else s in
  let s := click_log (verify_click o) "btn6" "verify_text" s in
  let s := click_log (continue_click o) "btn7" "continue_text" s in
  let clicked := did_click (verify_click o) || did_click (continue_click o) in
  let prev_url := current_url s in
  let redirect :=
    match landed o with
    | Ret new_url => if String.eqb new_url prev_url then None else Some new_url
    | Raise _ => None
    end in
  match redirect with
  | Some new_url =>
      let s := set_url (say s (LRedirected prev_url new_url)) new_url in
      if bool_decide (new_url ∈ visited s) then Stop (say s LRepeated) LoopDetected
      else Continue (add_visited s new_url) ByRedirect
  | None =>
      let candidate := Extract.find_get_link (page o) in
      if truthy candidate then
        match candidate with
        | Some c => Stop (say (set_final s c) (LFound c)) (Found c)
        | None => after_extraction o clicked s
        end
      else after_extraction o clicked s
  end
  end.

(** The loop: [k] is the index of the next step, [fuel] the steps left;
    the result carries the number of steps run. *)
Fixpoint run_loop (env : Env) (fuel k : nat) (s : Session) : outcome * Session * nat :=
  match fuel with
  | O => (BudgetExhausted, s, k)
  | S f =>
      match step (env k (current_url s)) k s with
      | Continue s' _ => run_loop env f (S k) s'
      | Stop s' o => (o, s', S k)
      end
  end.

(** [resolve_link_flow(start_url, ..., max_steps)] once the driver has
    started; the Python function returns [final_link] of the session. *)
Definition resolve_link_flow (env : Env) (start_url : string) (max_steps : nat)
    : outcome * Session * nat :=
  run_loop env max_steps 0 (init start_url).

(** [visited] holds exactly the URLs logged as redirect targets. *)
Definition visited_are_redirects (s : Session) : Prop :=
  forall u, u ∈ visited s <-> exists p, In (LRedirected p u) (log s).

Definition session_of (r : step_result) : Session :=
  match r with Continue s _ => s | Stop s _ => s end.

End Flow.

(* ================================================================== *)
(** ** The driver start and the Tkinter entry points *)

Module App.
Import Py Flow.

(** [resolve_link_flow] with the driver start: when starting ChromeDriver
    raises, it returns [None]; otherwise it runs the loop, releases the
    driver and returns [final_link]. *)
Definition resolve_link_flow_result (driver : res unit) (env : Env)
    (start_url : string) (max_steps : nat) : option string :=
  match driver with
  | Raise _ => None
  | Ret _ =>
      match resolve_link_flow env start_url max_steps with
      | (_, s, _) => final_link s
      end
  end.

(** What [LinkResolverApp.on_start] does with the entry's text. *)
Inductive start_action :=
  | ShowError                  (* "Please enter a start URL." *)
  | StartResolve (url : string).

Definition on_start (entry : string) : start_action :=
  let url := strip entry in
  if String.eqb url EmptyString then ShowError else StartResolve url.

(** [_run_resolve]: [resolve_link_flow(url, self.log, headless=headless)]
    with the default [max_steps=12]; the value put in [result_var] (which
    [on_start] cleared), if any. *)
Definition run_resolve (driver : res unit) (env : Env) (url : string) : option string :=
  let result := resolve_link_flow_result driver env url 12 in
  if truthy result then result else None.

(** [copy_result]: the text put on the clipboard, if any. *)
Definition copy_result (val : string) : option string :=
  if String.eqb val EmptyString then None else Some val.

End App.

(** Counting the ["Step n: Opening ..."] lines of a log. *)
Definition is_open_line (l : Flow.log_line) : bool :=
  match l with Flow.LOpen _ _ => true | _ => false end.

Definition count_opens (lg : list Flow.log_line) : nat :=
  List.length (List.filter is_open_line lg).

(* ================================================================== *)
(** ** Readings of the spec, and concrete page states *)

Module SpecWords.
Import Py Countdown.

(** The spec's countdown parse: "parse only the leading run of
    digit/sign characters" of the stripped text. *)
Fixpoint leading_run (s : string) : string :=
  match s with
  | EmptyString => EmptyString
  | String c t => if is_digit c || is_minus c then String c (leading_run t) else EmptyString
  end.

Definition spec_leading_countdown (raw : string) : option Z :=
  let run := leading_run (strip raw) in
  if String.eqb run EmptyString then None else py_int run.

End SpecWords.

Module Scenarios.
Import Flow.

Definition anchor (href txt : string) : Elem :=
  {| attr := fun n => if String.eqb n "href" then Ret (Some href) else Ret None;
     text := Ret txt |}.

(** An element gone stale before any read. *)
Definition stale : Elem :=
  {| attr := fun _ => Raise StaleElementReference;
     text := Raise StaleElementReference |}.

Definition no_such_id : string -> res Elem := fun _ => Raise WebDriverError.

Definition blank : Page :=
  {| by_id := no_such_id; by_class := Ret []; by_text := Ret []; by_tag_a := Ret [] |}.

(** A stable-id ["get-link"] control and a text-only ["Get Link"] match. *)
Definition two_controls : Page :=
  {| by_id := fun i => if String.eqb i "get-link"
                       then Ret (anchor "https://t.me/examplechannel" EmptyString)
                       else Raise WebDriverError;
     by_class := Ret [];
     by_text := Ret [anchor "https://t.me/otherchannel" "Get Link"];
     by_tag_a := Ret [] |}.

Definition long_link : string := "https://example.com/abcdefghij".

(** A long http anchor, then an anchor gone stale. *)
Definition stale_last_anchor : Page :=
  {| by_id := no_such_id; by_class := Ret []; by_text := Ret [];
     by_tag_a := Ret [anchor long_link EmptyString; stale] |}.

Definition quiet (p : Page) (landed : res string) (vc : click_result) : StepObs :=
  {| nav := Ret tt; countdown_waited := false;
     verify_click := vc; continue_click := NoClick;
     landed := landed; page := p;
     timer_text := Raise WebDriverError; timer_page := p;
     next_click := false; proceed_click := false |}.

(** A page with nothing to act on. *)
Definition dead_end : Env := fun _ u => quiet blank (Ret u) NoClick.

(** A redirects to B, every other page to A. *)
Definition a_b (u : string) : string := if String.eqb u "A" then "B" else "A".

Definition cycle_ab : Env := fun _ u => quiet blank (Ret (a_b u)) NoClick.

Definition readmore : string := "http://a/readmore".

(** Verify clicks by id, no redirect follows, no final link; one short
    ["/readmore"] anchor. *)
Definition clicked_then_anchor : Env := fun _ u =>
  quiet {| by_id := no_such_id; by_class := Ret []; by_text := Ret [];
           by_tag_a := Ret [anchor readmore EmptyString] |} (Ret u) ClickedById.

(** A countdown gate that shows ["0:05"] on every poll. *)
Definition clock_gate : Countdown.Gate :=
  {| Countdown.poll := fun _ => [Ret [Ret "0:05"]];
     Countdown.lookup_time := fun _ => O |}.

(** A page with no countdown element. *)
Definition no_gate : Countdown.Gate :=
  {| Countdown.poll := fun _ => [Ret []; Raise WebDriverError; Ret []; Ret []];
     Countdown.lookup_time := fun _ => O |}.

End Scenarios.

Module MoreScenarios.
Import Flow Scenarios.

(** Every page shows the ["get-link"] control of [two_controls]. *)
Definition found_env : Env := fun _ u => quiet two_controls (Ret u) NoClick.

(** Nothing clicked, no link, but a ["Next"] button. *)
Definition next_obs : StepObs :=
  {| nav := Ret tt; countdown_waited := false;
     verify_click := NoClick; continue_click := NoClick;
     landed := Ret "S"; page := blank;
     timer_text := Raise WebDriverError; timer_page := blank;
     next_click := true; proceed_click := false |}.

(** The anchor lookup of the heuristic pass raises. *)
Definition broken_anchors : Page :=
  {| by_id := no_such_id; by_class := Ret []; by_text := Ret [];
     by_tag_a := Raise WebDriverError |}.

End MoreScenarios.


(* ================================================================== *)
(** * Properties of [find_get_link] *)

Module ExtractFacts.
Import Py Extract.

Lemma find_get_link_first_success (p : Page) :
  find_get_link p = first_success (blocks p).
Proof.
  unfold find_get_link, first_success, blocks; simpl.
  repeat case_match; reflexivity.
Qed.

Lemma truthy_nonempty (o : option string) h :
  truthy o = true -> o = Some h -> h <> EmptyString.
Proof.
  intros Ht -> Hh; subst h; discriminate Ht.
Qed.

Lemma find_aux_ge needle s pos i :
  find_aux needle s pos = Some i -> (pos <= i)%nat.
Proof.
  revert pos; induction s as [|c t IH]; intros pos; cbn [find_aux].
  - destruct (String.prefix needle EmptyString); [intros H; injection H; lia | discriminate].
  - destruct (String.prefix needle (String c t)).
    + intros H; injection H; lia.
    + intros H; apply IH in H; lia.
Qed.

Lemma find_aux_prefix needle s pos i :
  find_aux needle s pos = Some i ->
  (i - pos <= String.length s)%nat /\ String.prefix needle (sdrop (i - pos) s) = true.
Proof.
  revert pos; induction s as [|c t IH]; intros pos; cbn [find_aux].
  - destruct (String.prefix needle EmptyString) eqn:E; [|discriminate].
    intros H; injection H as <-; rewrite Nat.sub_diag; split; [simpl; lia | exact E].
  - destruct (String.prefix needle (String c t)) eqn:E.
    + intros H; injection H as <-; rewrite Nat.sub_diag; split; [simpl; lia | exact E].
    + intros H. pose proof (find_aux_ge _ _ _ _ H).
      apply IH in H as [H1 H2].
      replace (i - pos)%nat with (S (i - S pos)) by lia; split; [simpl; lia | exact H2].
Qed.

Lemma sdrop_length n s :
  sdrop n s <> EmptyString -> (n < String.length s)%nat.
Proof.
  revert s; induction n as [|n IH]; intros [|c t]; simpl; try congruence; try lia.
  intros H; apply IH in H; lia.
Qed.

Lemma substring_nonempty n m s :
  (n < String.length s)%nat -> substring n (S m) s <> EmptyString.
Proof.
  revert s; induction n as [|n IH]; intros [|c t]; simpl; try lia; try congruence.
  intros H; apply IH; lia.
Qed.

Lemma prefix_http x :
  String.prefix "http" x = true -> exists r, x = String "h"%char r.
Proof.
  destruct x as [|c r]; intros H; [discriminate H|].
  change (match ascii_dec "h" c with
          | left _ => String.prefix "ttp" r | right _ => false end = true) in H.
  destruct (ascii_dec "h" c) as [<-|]; [eauto | discriminate H].
Qed.

(** [find_from s q start], for a one-character [q] other than ["h"],
    when the string at [start] begins with ["h"]: absent or past [start]. *)
Lemma find_from_after_h s q r (i : nat) :
  sdrop i s = String "h"%char r ->
  String.prefix q (String "h"%char r) = false ->
  find_from s q (Z.of_nat i) = -1 \/ (Z.of_nat i < find_from s q (Z.of_nat i)).
Proof.
  intros Hd Hq; unfold find_from; rewrite Nat2Z.id, Hd; cbn [find_aux]; rewrite Hq.
  destruct (find_aux q r (S i)) as [j|] eqn:E; [|auto].
  apply find_aux_ge in E; right; lia.
Qed.

Lemma onclick_url_nonempty s :
  contains "http" s = true -> onclick_url s <> EmptyString.
Proof.
  unfold contains, onclick_url; intros Hc.
  destruct (find_aux "http" s 0) as [i|] eqn:E; [|discriminate].
  assert (Hst : find_from s "http" 0 = Z.of_nat i)
    by (unfold find_from; change (Z.to_nat 0) with O; cbn [sdrop]; rewrite E; reflexivity).
  rewrite Hst.
  apply find_aux_prefix in E as [_ Hp]; rewrite Nat.sub_0_r in Hp.
  apply prefix_http in Hp as [r Hd].
  assert (Hlen : (i < String.length s)%nat) by (apply sdrop_length; rewrite Hd; discriminate).
  set (e1 := find_from s "'" (Z.of_nat i)).
  set (e2 := if Z.eqb e1 (-1) then find_from s dquote (Z.of_nat i) else e1).
  set (e3 := if Z.eqb e2 (-1) then len s else e2).
  assert (H1 : e1 = -1 \/ Z.of_nat i < e1) by (apply (find_from_after_h s _ r); auto).
  assert (H2 : e2 = -1 \/ Z.of_nat i < e2).
  { unfold e2; destruct (Z.eqb_spec e1 (-1)); [|destruct H1; [contradiction | auto]].
    apply (find_from_after_h s _ r); auto. }
  assert (H3 : Z.of_nat i < e3).
  { unfold e3, len; destruct (Z.eqb_spec e2 (-1)); [lia|destruct H2; [contradiction | auto]]. }
  unfold slice; rewrite Nat2Z.id.
  replace (Z.to_nat e3 - i)%nat with (S (Z.to_nat e3 - i - 1)) by lia.
  apply substring_nonempty; exact Hlen.
Qed.

Ltac res_unfold := cbv [mbind mret res_bind res_ret] in *.

Lemma try_id_nonempty p id : nonempty_res (try_id p id).
Proof.
  unfold nonempty_res, try_id; intros h; res_unfold.
  destruct (by_id p id) as [el|]; [|discriminate].
  destruct (attr el "href") as [href|]; [|discriminate].
  destruct (truthy href) eqn:Ht; intros [= Hh].
  eapply truthy_nonempty; eauto.
Qed.

Lemma first_href_nonempty els : nonempty_res (first_href els).
Proof.
  unfold nonempty_res; induction els as [|e rest IH]; simpl; res_unfold; intros h; [discriminate|].
  destruct (attr e "href") as [href|]; [|discriminate].
  destruct (truthy href) eqn:Ht; [|apply IH].
  intros [= Hh]; eapply truthy_nonempty; eauto.
Qed.

Lemma text_scan_nonempty els : nonempty_res (text_scan els).
Proof.
  unfold nonempty_res; induction els as [|e rest IH]; simpl; res_unfold; intros h; [discriminate|].
  destruct (attr e "href") as [href|]; [|discriminate].
  destruct (truthy href) eqn:Ht.
  - intros [= Hh]; eapply truthy_nonempty; eauto.
  - destruct (attr e "onclick") as [oc|]; [|discriminate].
    destruct (contains "http" (or_empty oc)) eqn:Hc; [|apply IH].
    intros [= <-]; apply onclick_url_nonempty; exact Hc.
Qed.

Lemma rev_scan_nonempty anchors : nonempty_res (rev_scan anchors).
Proof.
  unfold nonempty_res; induction anchors as [|a rest IH]; simpl; res_unfold; intros h; [discriminate|].
  destruct (attr a "href") as [hr|]; [|discriminate].
  destruct (text a) as [t|]; [|discriminate].
  destruct (String.eqb_spec (or_empty hr) EmptyString) as [E|E]; [apply IH|].
  repeat case_match; try apply IH; intros [= <-]; exact E.
Qed.

Lemma fwd_scan_nonempty anchors : nonempty_res (fwd_scan anchors).
Proof.
  unfold nonempty_res; induction anchors as [|a rest IH]; simpl; res_unfold; intros h; [discriminate|].
  destruct (attr a "href") as [hr|]; [|discriminate].
  destruct (startswith (or_empty hr) "http" && Z.ltb 20 (len (or_empty hr))) eqn:E; [|apply IH].
  intros [= <-] Hh. unfold len in E; rewrite Hh in E; simpl in E; discriminate.
Qed.

Lemma try_anchors_nonempty p : nonempty_res (try_anchors p).
Proof.
  unfold nonempty_res, try_anchors; intros h; res_unfold.
  destruct (by_tag_a p) as [anchors|]; [|discriminate].
  destruct (rev_scan (rev anchors)) as [[r|]|] eqn:E.
  - intros [= <-]; eapply rev_scan_nonempty; eauto.
  - apply fwd_scan_nonempty.
  - discriminate.
Qed.

Lemma guard_nonempty r h : nonempty_res r -> guard r = Some h -> h <> EmptyString.
Proof.
  unfold nonempty_res, guard; destruct r as [[o|]|]; intros H; try discriminate.
  intros [= ->]; apply H; reflexivity.
Qed.

End ExtractFacts.

Module ExtractClaims.
Import Py Extract ExtractFacts Scenarios.

(** C3: [find_get_link] runs its guarded blocks in source order and
    returns the first URL found; a stable-id ["get-link"] control with a
    non-empty [href] wins over everything else, and the ["gt-link"] id
    wins over the class, text and anchor strategies. *)
Theorem find_get_link_priority (p : Page) :
  (forall el h, by_id p "get-link" = Ret el -> attr el "href" = Ret (Some h) ->
     h <> EmptyString -> find_get_link p = Some h) /\
  (forall el h, guard (try_id p "get-link") = None ->
     by_id p "gt-link" = Ret el -> attr el "href" = Ret (Some h) ->
     h <> EmptyString -> find_get_link p = Some h) /\
  find_get_link p = first_success (blocks p).
Proof.
  split; [|split; [|apply find_get_link_first_success]].
  - intros el h Hid Hhref Hne.
    unfold find_get_link, try_id; res_unfold; rewrite Hid, Hhref; simpl.
    destruct (String.eqb_spec h EmptyString); [contradiction | reflexivity].
  - intros el h Hfirst Hid Hhref Hne.
    unfold find_get_link; rewrite Hfirst.
    unfold try_id; res_unfold; rewrite Hid, Hhref; simpl.
    destruct (String.eqb_spec h EmptyString); [contradiction | reflexivity].
Qed.

Lemma find_get_link_priority_witness :
  find_get_link two_controls = Some "https://t.me/examplechannel" /\
  guard (try_text two_controls) = Some "https://t.me/otherchannel".
Proof.
  split; [|reflexivity].
  apply (proj1 (find_get_link_priority two_controls)
           (anchor "https://t.me/examplechannel" EmptyString)); [reflexivity | reflexivity | discriminate].
Defined.

(** C8 (counterexample): a stale anchor met by the reverse anchor scan
    aborts the shared guard, so the forward long-anchor fallback, which
    alone would find a URL, is not run and extraction returns [None]. *)
Lemma stale_anchor_skips_fallback :
  by_tag_a stale_last_anchor = Ret [anchor long_link EmptyString; stale] /\
  fwd_scan [anchor long_link EmptyString; stale] = Ret (Some long_link) /\
  find_get_link stale_last_anchor = None.
Proof. repeat split; vm_compute; reflexivity. Qed.

(** C8 (amended): every lookup and read of [find_get_link] is guarded,
    so it never raises: it returns the first URL of its guarded blocks
    (ids, class, text, anchors) and [None] when none yields one.  A raise
    during the reverse anchor scan ends the last block, which also holds
    the forward fallback, with no URL. *)
Theorem find_get_link_guards (p : Page) :
  find_get_link p = first_success (blocks p) /\
  (forall anchors e, by_tag_a p = Ret anchors -> rev_scan (rev anchors) = Raise e ->
     guard (try_anchors p) = None).
Proof.
  split; [apply find_get_link_first_success|].
  intros anchors e Ha Hr; unfold try_anchors; res_unfold; rewrite Ha, Hr; reflexivity.
Qed.

Lemma find_get_link_guards_witness :
  guard (try_anchors stale_last_anchor) = None /\
  find_get_link stale_last_anchor = first_success (blocks stale_last_anchor).
Proof.
  split; [|exact (proj1 (find_get_link_guards stale_last_anchor))].
  apply (proj2 (find_get_link_guards stale_last_anchor)
           [anchor long_link EmptyString; stale] StaleElementReference); reflexivity.
Defined.

(** C10: [find_get_link] returns [None] or a non-empty string. *)
Theorem find_get_link_nonempty (p : Page) (h : string) :
  find_get_link p = Some h -> h <> EmptyString.
Proof.
  rewrite find_get_link_first_success; unfold first_success, blocks; simpl.
  destruct (guard (try_id p "get-link")) eqn:E1;
    [intros [= <-]; eapply guard_nonempty; [apply try_id_nonempty | exact E1]|].
  destruct (guard (try_id p "gt-link")) eqn:E2;
    [intros [= <-]; eapply guard_nonempty; [apply try_id_nonempty | exact E2]|].
  destruct (guard (try_class p)) eqn:E3;
    [intros [= <-]; eapply guard_nonempty; [|exact E3]|].
  { unfold nonempty_res, try_class; res_unfold; intros h'.
    destruct (by_class p); [apply first_href_nonempty | discriminate]. }
  destruct (guard (try_text p)) eqn:E4;
    [intros [= <-]; eapply guard_nonempty; [|exact E4]|].
  { unfold nonempty_res, try_text; res_unfold; intros h'.
    destruct (by_text p); [apply text_scan_nonempty | discriminate]. }
  destruct (guard (try_anchors p)) eqn:E5;
    [intros [= <-]; eapply guard_nonempty; [apply try_anchors_nonempty | exact E5]|].
  discriminate.
Qed.

Lemma find_get_link_nonempty_witness :
  find_get_link two_controls = Some "https://t.me/examplechannel" /\
  "https://t.me/examplechannel" <> EmptyString.
Proof.
  split; [reflexivity|].
  apply (find_get_link_nonempty two_controls); reflexivity.
Defined.

End ExtractClaims.

(* ================================================================== *)
(** * Properties of [wait_for_countdown_zero] *)

Module CountdownFacts.
Import Py Countdown.

Lemma keep_digits_lstrip s : keep_digits (lstrip s) = keep_digits s.
Proof.
  induction s as [|c t IH]; simpl; [reflexivity|].
  destruct (is_space c) eqn:Hs; [|reflexivity].
  rewrite IH.
  assert (Hd : is_digit c = false).
  { apply not_true_iff_false; intros Hd.
    unfold is_digit, is_space in *.
    rewrite andb_true_iff, !Nat.leb_le in Hd.
    apply orb_true_iff in Hs; rewrite !andb_true_iff, !Nat.leb_le in Hs; lia. }
  assert (Hm : is_minus c = false).
  { unfold is_minus; destruct (Ascii.eqb_spec c "-"%char) as [->|]; [discriminate Hs | reflexivity]. }
  assert (Hk : is_digit c || is_minus c = false) by (rewrite Hd, Hm; reflexivity).
  rewrite Hk; reflexivity.
Qed.

Lemma keep_digits_rev_str s acc :
  keep_digits (rev_str s acc) = rev_str (keep_digits s) (keep_digits acc).
Proof.
  revert acc; induction s as [|c t IH]; intros acc; simpl; [reflexivity|].
  rewrite IH; simpl; destruct (is_digit c || is_minus c); reflexivity.
Qed.

Lemma rev_str_rev_str x acc b :
  rev_str (rev_str x acc) b = rev_str acc (String.append x b).
Proof.
  revert acc b; induction x as [|c t IH]; intros acc b; cbn [rev_str String.append];
    [reflexivity|].
  rewrite IH; reflexivity.
Qed.

Lemma append_empty_r (x : string) : String.append x EmptyString = x.
Proof. induction x as [|c t IH]; [reflexivity | exact (f_equal (String c) IH)]. Qed.

Lemma keep_digits_strip s : keep_digits (strip s) = keep_digits s.
Proof.
  unfold strip, rstrip.
  rewrite keep_digits_rev_str, keep_digits_lstrip, keep_digits_rev_str,
    keep_digits_lstrip; simpl.
  rewrite rev_str_rev_str; cbn [rev_str].
  rewrite append_empty_r; reflexivity.
Qed.

End CountdownFacts.

Module CountdownClaims.
Import Py Countdown CountdownFacts SpecWords Scenarios.

Lemma scan_selectors_no_match sels lg :
  no_match sels = true -> scan_selectors sels false lg = CDone false lg.
Proof.
  induction sels as [|r rest IH]; simpl; [reflexivity|].
  destruct r as [[|e els]|]; simpl; [apply IH | discriminate | apply IH].
Qed.

Lemma scan_elems_spec els lg :
  all_pos lg ->
  match scan_elems els lg with
  | EReached lg' => exists z, In z lg' /\ z <= 0
  | EDone lg' => all_pos lg'
  end.
Proof.
  revert lg; induction els as [|t rest IH]; intros lg Hlg; simpl; [exact Hlg|].
  destruct t as [raw|[| |]]; try exact Hlg; try (apply IH; exact Hlg).
  destruct (parse_countdown raw) as [num|]; [|apply IH; exact Hlg].
  destruct (Z.leb_spec num 0).
  - exists num; split; [apply in_or_app; right; left; reflexivity | assumption].
  - apply IH; apply Forall_app; split; [exact Hlg | constructor; [lia | constructor]].
Qed.

Lemma scan_selectors_spec sels found lg :
  all_pos lg ->
  match scan_selectors sels found lg with
  | CReached lg' => exists z, In z lg' /\ z <= 0
  | CDone _ lg' => all_pos lg'
  end.
Proof.
  revert found lg; induction sels as [|r rest IH]; intros found lg Hlg; simpl; [exact Hlg|].
  destruct r as [[|e els]|]; try (apply IH; exact Hlg).
  pose proof (scan_elems_spec (e :: els) lg Hlg) as He.
  destruct (scan_elems (e :: els) lg); [exact He | apply IH; exact He].
Qed.

Lemma all_pos_no_zero lg : all_pos lg -> ~ (exists z, In z lg /\ z <= 0).
Proof.
  intros Hlg [z [Hin Hz]]; unfold all_pos in Hlg; rewrite List.Forall_forall in Hlg.
  specialize (Hlg z Hin); lia.
Qed.

Lemma poll_loop_spec g timeout fuel n elapsed lg sl :
  all_pos lg ->
  (waited (poll_loop g timeout fuel n elapsed lg sl) = true <->
   exists z, In z (shown (poll_loop g timeout fuel n elapsed lg sl)) /\ z <= 0).
Proof.
  revert n elapsed lg sl; induction fuel as [|f IH]; intros n elapsed lg sl Hlg; simpl.
  - split; [discriminate | intros H; exfalso; exact (all_pos_no_zero lg Hlg H)].
  - destruct (elapsed <? timeout)%nat; simpl.
    2: { split; [discriminate | intros H; exfalso; exact (all_pos_no_zero lg Hlg H)]. }
    pose proof (scan_selectors_spec (poll g n) false lg Hlg) as Hs.
    destruct (scan_selectors (poll g n) false lg) as [lg'|[|] lg']; simpl.
    + split; [intros _; exact Hs | reflexivity].
    + apply IH; exact Hs.
    + split; [discriminate | intros H; exfalso; exact (all_pos_no_zero lg' Hs H)].
Qed.

(** C5 (counterexample): the code keeps every digit and ['-'] of the
    text, not only a leading run: ["0:05"] parses to 5, where the leading
    run ["0"] would give 0, and the gate is never seen at zero. *)
Lemma countdown_not_leading_run :
  parse_countdown "0:05" = Some 5 /\
  spec_leading_countdown "0:05" = Some 0 /\
  waited (wait_for_countdown_zero clock_gate 1) = false.
Proof. repeat split; vm_compute; reflexivity. Qed.

(** C5 (amended): the parsed value is [int] of all digit and ['-']
    characters of the text, wherever they occur (stripping changes
    nothing); an element whose digits are absent or not an integer is
    skipped, the scan going on with the next element. *)
Theorem countdown_parse_all_digits (raw : string) :
  parse_countdown raw =
    (let d := keep_digits raw in if String.eqb d EmptyString then None else py_int d) /\
  (forall rest lg, parse_countdown raw = None ->
     scan_elems (Ret raw :: rest) lg = scan_elems rest lg).
Proof.
  split.
  - unfold parse_countdown; rewrite keep_digits_strip; reflexivity.
  - intros rest lg Hp; simpl; rewrite Hp; reflexivity.
Qed.

Lemma countdown_parse_all_digits_witness :
  parse_countdown "--" = None /\
  scan_elems [Ret "--"; Ret "0"] [] = EReached [0].
Proof.
  split; [reflexivity|].
  rewrite (proj2 (countdown_parse_all_digits "--") [Ret "0"] [] eq_refl); reflexivity.
Defined.

(** C7: on any poll cycle where no selector locates an element, the
    detector returns [False] at once: no sleep of that cycle, nothing
    logged ([timeout <= fuel + elapsed] holds on every cycle of
    [wait_for_countdown_zero]). *)
Theorem no_gate_returns_at_once (g : Gate) (timeout fuel n elapsed : nat)
    (lg : list Z) (sl : nat) :
  (timeout <= fuel + elapsed)%nat -> (elapsed < timeout)%nat ->
  no_match (poll g n) = true ->
  poll_loop g timeout fuel n elapsed lg sl = {| waited := false; shown := lg; sleeps := sl |}.
Proof.
  intros Hf Ht Hn.
  destruct fuel as [|f]; [lia|]; simpl.
  destruct (Nat.ltb_spec elapsed timeout); [|lia].
  rewrite scan_selectors_no_match by exact Hn; reflexivity.
Qed.

Lemma no_gate_returns_at_once_witness :
  wait_for_countdown_zero no_gate 20 = {| waited := false; shown := []; sleeps := O |}.
Proof.
  unfold wait_for_countdown_zero.
  apply no_gate_returns_at_once; [lia | lia | reflexivity].
Defined.

(** C9: the detector returns [True] exactly when some number it read
    and logged is at most 0; it returns [False] in every other case,
    whether no gate was located or the timeout ran out. *)
Theorem countdown_true_iff_zero_seen (g : Gate) (timeout : nat) :
  waited (wait_for_countdown_zero g timeout) = true <->
  exists z, In z (shown (wait_for_countdown_zero g timeout)) /\ z <= 0.
Proof.
  unfold wait_for_countdown_zero; apply poll_loop_spec; constructor.
Qed.

End CountdownClaims.

(* ================================================================== *)
(** * Properties of [resolve_link_flow] *)

Module FlowFacts.
Import Py Flow.

Lemma var_say s l :
  visited_are_redirects s -> (forall p u, l <> LRedirected p u) ->
  visited_are_redirects (say s l).
Proof.
  unfold visited_are_redirects; simpl; intros H Hl u; rewrite H.
  split; intros [p Hp]; exists p.
  - apply in_or_app; left; exact Hp.
  - apply in_app_or in Hp as [Hp|[Hp|[]]]; [exact Hp | exfalso; exact (Hl _ _ Hp)].
Qed.

Lemma var_say_redirect s p u :
  visited_are_redirects s -> u ∈ visited s ->
  visited_are_redirects (say s (LRedirected p u)).
Proof.
  unfold visited_are_redirects; simpl; intros H Hu v; split.
  - intros Hv; apply H in Hv as [q Hq]; exists q; apply in_or_app; left; exact Hq.
  - intros [q Hq]; apply in_app_or in Hq as [Hq|[Hq|[]]].
    + apply H; exists q; exact Hq.
    + injection Hq as -> ->; exact Hu.
Qed.

Lemma var_add_redirect s p u :
  visited_are_redirects s ->
  visited_are_redirects (add_visited (say s (LRedirected p u)) u).
Proof.
  unfold visited_are_redirects; simpl; intros H v.
  rewrite elem_of_union, elem_of_singleton, H; split.
  - intros [->|[q Hq]].
    + exists p; apply in_or_app; right; left; reflexivity.
    + exists q; apply in_or_app; left; exact Hq.
  - intros [q Hq]; apply in_app_or in Hq as [Hq|[Hq|[]]].
    + right; exists q; exact Hq.
    + left; injection Hq as -> ->; reflexivity.
Qed.

Lemma var_click_log c a b s :
  visited_are_redirects s -> visited_are_redirects (click_log c a b s).
Proof.
  destruct c; simpl; intros H; [exact H | |]; apply var_say; try exact H; discriminate.
Qed.

Ltac var_solve :=
  repeat first
    [ assumption
    | apply var_click_log
    | apply var_add_redirect
    | apply var_say; [| discriminate] ].

Lemma after_extraction_var o clicked s :
  visited_are_redirects s -> visited_are_redirects (session_of (after_extraction o clicked s)).
Proof.
  intros H; unfold after_extraction.
  destruct (timer_text o) as [raw|e].
  - destruct (String.eqb (strip raw) "0" || String.eqb (strip raw) EmptyString);
      [destruct (truthy (Extract.find_get_link (timer_page o))) eqn:Et|];
      repeat case_match; simpl; subst; unfold set_url, set_final; var_solve.
  - repeat case_match; simpl; subst; unfold set_url; var_solve.
Qed.
End FlowFacts.

Module FlowClaims.
Import Py Flow FlowFacts Scenarios.

Lemma step_var o k s :
  visited_are_redirects s -> visited_are_redirects (session_of (step o k s)).
Proof.
  intros H; unfold step.
  set (s1 := say s (LOpen (S k) (current_url s))).
  assert (H1 : visited_are_redirects s1) by (apply var_say; [exact H | discriminate]).
  clearbody s1.
  destruct (nav o) as [[]|[| |]]; simpl;
    try (apply var_say; [exact H1 | discriminate]);
  (set (s2 := click_log (continue_click o) "btn7" "continue_text"
                (click_log (verify_click o) "btn6" "verify_text"
                   (if countdown_waited o then say _ LCountdownHandled else _))));
  (assert (H2 : visited_are_redirects s2)
     by (unfold s2; apply var_click_log, var_click_log;
         destruct (countdown_waited o); var_solve));
  clearbody s2;
  (destruct (landed o) as [u|e];
   [destruct (String.eqb u (current_url s2)) eqn:Eu|]);
  try (apply after_extraction_var; exact H2);
  try (destruct (truthy (Extract.find_get_link (page o)));
       [case_match; simpl; [unfold set_final; var_solve | apply after_extraction_var; exact H2]
       | apply after_extraction_var; exact H2]).
  all: simpl; case_bool_decide as Hin; simpl;
    [ apply var_say; [apply var_say_redirect; [exact H2 | exact Hin] | discriminate]
    | exact (var_add_redirect s2 (current_url s2) u H2) ].
Qed.

Lemma run_loop_var env fuel k s :
  visited_are_redirects s ->
  match run_loop env fuel k s with (_, s', _) => visited_are_redirects s' end.
Proof.
  revert k s; induction fuel as [|f IH]; intros k s H; simpl; [exact H|].
  pose proof (step_var (env k (current_url s)) k s H) as Hs.
  destruct (step (env k (current_url s)) k s); simpl in Hs; [apply IH; exact Hs | exact Hs].
Qed.

Lemma run_loop_steps env fuel k s :
  match run_loop env fuel k s with (_, _, n) => (n <= k + fuel)%nat end.
Proof.
  revert k s; induction fuel as [|f IH]; intros k s; simpl; [lia|].
  destruct (step (env k (current_url s)) k s).
  - specialize (IH (S k) s0); destruct (run_loop env f (S k) s0) as [[? ?] ?]; lia.
  - lia.
Qed.

(** C1 (counterexample): the start URL is not in [visited] when it is
    opened (here it stays out to the end of the run), and neither is a
    URL reached by the heuristic anchor pass. *)
Lemma start_and_followed_urls_not_visited :
  match resolve_link_flow dead_end "A" 12 with
  | (o, s, _) => o = DeadEnd /\ current_url s = "A" /\ current_url s ∉ visited s
  end /\
  match resolve_link_flow clicked_then_anchor "S" 1 with
  | (_, s, _) => current_url s = readmore /\ current_url s ∉ visited s
  end.
Proof.
  assert (E1 : resolve_link_flow dead_end "A" 12 =
    (DeadEnd, {| current_url := "A"; visited := ∅; final_link := None;
                 log := [LOpen 1 "A"; LNoActionable] |}, 1%nat)) by reflexivity.
  assert (E2 : resolve_link_flow clicked_then_anchor "S" 1 =
    (BudgetExhausted, {| current_url := readmore; visited := ∅; final_link := None;
                 log := [LOpen 1 "S"; LClicked "btn6"; LFollow readmore EmptyString] |}, 1%nat))
    by reflexivity.
  rewrite E1, E2; simpl; split; [split; [reflexivity | split; [reflexivity | set_solver]] |].
  split; [reflexivity | set_solver].
Qed.

(** C1 (amended): at every step boundary of every run, [visited] is
    exactly the set of redirect targets logged so far: a URL found by the
    navigation tracker is in [visited] from its detection on, while the
    start URL and heuristic-follow targets enter it only as redirect
    targets. *)
Theorem visited_is_redirect_targets (env : Env) (start_url : string) (max_steps : nat) :
  match resolve_link_flow env start_url max_steps with
  | (_, s, _) => forall u, u ∈ visited s <-> exists p, In (LRedirected p u) (log s)
  end.
Proof.
  apply run_loop_var; unfold init, visited_are_redirects; simpl; intros u; split.
  - set_solver.
  - intros [p []].
Qed.

(** C2: the loop never runs more than [max_steps] steps. *)
Theorem step_budget (env : Env) (start_url : string) (max_steps : nat) :
  match resolve_link_flow env start_url max_steps with
  | (_, _, n) => (n <= max_steps)%nat
  end.
Proof. apply (run_loop_steps env max_steps 0). Qed.

(** The heuristic anchor pass is the only part of [after_extraction] that
    follows an anchor, ends in a dead end or raises; it is reached only
    when the timer check found no link and, if nothing was clicked, Next
    and Proceed clicked nothing either. *)
Lemma after_extraction_pass o clicked s s' :
  after_extraction o clicked s = Continue s' ByFollow \/
  after_extraction o clicked s = Stop s' DeadEnd \/
  after_extraction o clicked s = Stop s' Fatal ->
  (forall raw, timer_text o = Ret raw ->
     String.eqb (strip raw) "0" || String.eqb (strip raw) EmptyString = true ->
     truthy (Extract.find_get_link (timer_page o)) = false) /\
  (clicked = false -> next_click o = false /\ proceed_click o = false) /\
  (after_extraction o clicked s = Stop s' Fatal -> exists e, heuristic_follow (page o) = Raise e).
Proof.
  unfold after_extraction.
  destruct (heuristic_follow (page o)) as [[[h t]|]|e'] eqn:Eh.
  all: destruct (timer_text o) as [raw|e] eqn:Et;
    [destruct (String.eqb (strip raw) "0" || String.eqb (strip raw) EmptyString) eqn:Ez;
     [destruct (truthy (Extract.find_get_link (timer_page o))) eqn:Ef|]|].
  all: destruct clicked, (next_click o), (proceed_click o); simpl;
    repeat case_match; intros [Hc|[Hc|Hc]]; try discriminate Hc.
  all: split; [first [ discriminate
                     | intros raw' [= <-] Hz; congruence ] |].
  all: split; [intros Hcl; try discriminate Hcl; split; reflexivity |].
  all: intros HF; first [discriminate HF | eexists; reflexivity].
Qed.

(** C4 (counterexample): in one step Verify is clicked by id, no redirect
    follows, no final link is found, and the heuristic anchor pass still
    follows the ["/readmore"] anchor. *)
Lemma follow_after_click :
  verify_click (clicked_then_anchor O "S") = ClickedById /\
  step (clicked_then_anchor O "S") O (init "S") =
    Continue {| current_url := readmore; visited := ∅; final_link := None;
                log := [LOpen 1 "S"; LClicked "btn6"; LFollow readmore EmptyString] |}
             ByFollow.
Proof. split; reflexivity. Qed.

(** C4 (amended): the heuristic anchor pass runs in a step, whatever it
    then does (follow an anchor, find nothing and end in a dead end, or
    raise and end the flow fatally), only when no redirect was detected
    and neither call of [find_get_link] found a link; if the
    Verify/Continue pair clicked nothing, also Next and Proceed must have
    clicked nothing, while after a Verify/Continue click the pass runs
    regardless of Next/Proceed. A fatal stop that [driver.get] did not
    cause comes from the pass raising. *)
Theorem heuristic_follow_conditions (o : StepObs) (k : nat) (s s' : Session) :
  step o k s = Continue s' ByFollow \/
  step o k s = Stop s' DeadEnd \/
  (step o k s = Stop s' Fatal /\ nav o <> Raise OtherError) ->
  nav o <> Raise OtherError /\
  (forall u, landed o = Ret u -> u = current_url s) /\
  truthy (Extract.find_get_link (page o)) = false /\
  (forall raw, timer_text o = Ret raw ->
     String.eqb (strip raw) "0" || String.eqb (strip raw) EmptyString = true ->
     truthy (Extract.find_get_link (timer_page o)) = false) /\
  (did_click (verify_click o) || did_click (continue_click o) = false ->
     next_click o = false /\ proceed_click o = false) /\
  (step o k s = Stop s' Fatal -> exists e, heuristic_follow (page o) = Raise e).
Proof.
  intros H.
  assert (Hn : nav o <> Raise OtherError).
  { intros En; unfold step in H; rewrite En in H.
    destruct H as [H|[H|[_ H]]]; [discriminate H | discriminate H | exact (H eq_refl)]. }
  split; [exact Hn|]; revert H.
  unfold step.
  set (s2 := click_log (continue_click o) "btn7" "continue_text"
               (click_log (verify_click o) "btn6" "verify_text"
                  (if countdown_waited o then say _ LCountdownHandled else _))).
  assert (Hcur : forall x, current_url (click_log (continue_click o) "btn7" "continue_text"
               (click_log (verify_click o) "btn6" "verify_text"
                  (if countdown_waited o then say x LCountdownHandled else x))) = current_url x).
  { intros x; destruct (continue_click o), (verify_click o), (countdown_waited o); reflexivity. }
  destruct (nav o) as [[]|[| |]] eqn:En; simpl; try (exfalso; apply Hn; reflexivity).
  all: destruct (landed o) as [u|e] eqn:El;
    [destruct (String.eqb_spec u (current_url s2)) as [Eu|Eu]|].
  all: try (destruct (bool_decide (u ∈ visited s2)); intros [H|[H|[H _]]]; discriminate H).
  all: destruct (truthy (Extract.find_get_link (page o))) eqn:Ef;
    [destruct (Extract.find_get_link (page o));
     [intros [H|[H|[H _]]]; cbv iota beta in H; discriminate H | simpl in Ef; discriminate Ef] |].
  all: intros Hae; edestruct after_extraction_pass as [Ht [Hcl Hf]];
    [destruct Hae as [H|[H|[H _]]]; [left; exact H | right; left; exact H | right; right; exact H]|].
  all: split; [|split; [reflexivity | split; [exact Ht | split; [exact Hcl | exact Hf]]]].
  all: intros u0 Hu; first
    [ discriminate Hu
    | injection Hu as <-; rewrite Eu; unfold s2; rewrite Hcur; reflexivity ].
Qed.

Lemma heuristic_follow_conditions_witness :
  (nav (clicked_then_anchor O "S") <> Raise OtherError /\
   truthy (Extract.find_get_link (page (clicked_then_anchor O "S"))) = false) /\
  truthy (Extract.find_get_link (page (dead_end O "A"))) = false /\
  (exists e, heuristic_follow (page (quiet MoreScenarios.broken_anchors (Ret "S") NoClick))
             = Raise e).
Proof.
  split; [|split].
  - destruct (heuristic_follow_conditions (clicked_then_anchor O "S") O (init "S")
                (session_of (step (clicked_then_anchor O "S") O (init "S"))))
      as [H1 [_ [H3 _]]]; [left; reflexivity|].
    split; [exact H1 | exact H3].
  - destruct (heuristic_follow_conditions (dead_end O "A") O (init "A")
                (session_of (step (dead_end O "A") O (init "A"))))
      as [_ [_ [H3 _]]]; [right; left; reflexivity|].
    exact H3.
  - destruct (heuristic_follow_conditions (quiet MoreScenarios.broken_anchors (Ret "S") NoClick)
                O (init "S")
                (session_of (step (quiet MoreScenarios.broken_anchors (Ret "S") NoClick)
                                  O (init "S"))))
      as [_ [_ [_ [_ [_ H6]]]]];
      [right; right; split; [reflexivity | discriminate] |].
    apply H6; reflexivity.
Defined.

Lemma click_log_current c a b x : current_url (click_log c a b x) = current_url x.
Proof. destruct c; reflexivity. Qed.

Lemma click_log_visited c a b x : visited (click_log c a b x) = visited x.
Proof. destruct c; reflexivity. Qed.

Lemma step_redirect o k s u :
  nav o <> Raise OtherError -> landed o = Ret u -> u <> current_url s ->
  match step o k s with
  | Stop s' LoopDetected => u ∈ visited s /\ visited s' = visited s
  | Continue s' ByRedirect => (u ∉ visited s) /\ visited s' = {[u]} ∪ visited s
  | _ => False
  end.
Proof.
  intros Hn Hl Hu; unfold step; rewrite Hl.
  destruct (nav o) as [[]|[| |]]; [| | |contradiction]; cbv zeta;
    rewrite !click_log_current; destruct (countdown_waited o);
    cbn [current_url say];
    (destruct (String.eqb_spec u (current_url s)) as [E|_]; [contradiction|]);
    case_bool_decide as Hin;
    cbn [current_url visited say set_url add_visited] in *;
    rewrite ?click_log_visited in *; cbn [visited say] in *; split; auto.
Qed.

Section RedirectOnly.
Variable env : Env.
Variable r : string -> string.
Hypothesis Hland : forall k u, landed (env k u) = Ret (r u).
Hypothesis Hnav : forall k u, nav (env k u) <> Raise OtherError.
Hypothesis Hr : forall u, r u <> u.

Lemma run_loop_redirect fuel k s :
  size (visited s) = k ->
  match run_loop env fuel k s with
  | (o, s', n) =>
      (o = LoopDetected /\ n = S (size (visited s'))) \/
      (o = BudgetExhausted /\ n = (k + fuel)%nat /\ size (visited s') = n)
  end.
Proof.
  revert k s; induction fuel as [|f IH]; intros k s Hk; simpl.
  - right; split; [reflexivity | split; lia].
  - pose proof (step_redirect (env k (current_url s)) k s (r (current_url s))
                  (Hnav _ _) (Hland _ _) (Hr _)) as Hs.
    destruct (step (env k (current_url s)) k s) as [s' [| | |]|s' [| | | |]];
      try contradiction.
    + destruct Hs as [Hnot Hv].
      assert (Hsz : size (visited s') = S k).
      { rewrite Hv, size_union by set_solver; rewrite size_singleton; lia. }
      specialize (IH (S k) s' Hsz).
      destruct (run_loop env f (S k) s') as [[o s''] n].
      destruct IH as [IH|[Ho [Hn Hsz']]]; [left; exact IH | right; split; [exact Ho | split; lia]].
    + destruct Hs as [_ Hv]; left; split; [reflexivity | rewrite Hv; lia].
Qed.

End RedirectOnly.

(** C6 (counterexample): with the redirect cycle A -> B -> A the run ends
    in [LoopDetected] after 3 = |visited| + 1 steps when [max_steps] is
    12, but a budget of 2 steps runs out first and no loop is signalled. *)
Lemma redirect_cycle_budget_first :
  match resolve_link_flow cycle_ab "A" 12 with
  | (o, s, n) => o = LoopDetected /\ n = 3%nat /\ size (visited s) = 2%nat
  end /\
  match resolve_link_flow cycle_ab "A" 2 with
  | (o, _, n) => o = BudgetExhausted /\ n = 2%nat
  end.
Proof. vm_compute; repeat split; reflexivity. Qed.

(** C6 (amended): when every page redirects to another URL, a run ends
    either in [LoopDetected] after exactly |visited| + 1 steps, or, when
    [max_steps] runs out first, with the budget exhausted after
    [max_steps] steps, each of which added a new URL to [visited]. *)
Theorem redirect_only_run_outcome (env : Env) (r : string -> string)
    (Hland : forall k u, landed (env k u) = Ret (r u))
    (Hnav : forall k u, nav (env k u) <> Raise OtherError)
    (Hr : forall u, r u <> u)
    (start_url : string) (max_steps : nat) :
  match resolve_link_flow env start_url max_steps with
  | (o, s, n) =>
      (o = LoopDetected /\ n = S (size (visited s))) \/
      (o = BudgetExhausted /\ n = max_steps /\ size (visited s) = max_steps)
  end.
Proof.
  pose proof (run_loop_redirect env r Hland Hnav Hr max_steps 0 (init start_url) eq_refl) as H.
  unfold resolve_link_flow; destruct (run_loop env max_steps 0 (init start_url)) as [[o s] n].
  destruct H as [H|[Ho [Hn Hs]]]; [left; exact H | right; simpl in Hn; split; [exact Ho | lia]].
Qed.

Lemma redirect_only_run_outcome_witness :
  match resolve_link_flow cycle_ab "A" 12 with
  | (o, s, n) =>
      (o = LoopDetected /\ n = S (size (visited s))) \/
      (o = BudgetExhausted /\ n = 12%nat /\ size (visited s) = 12%nat)
  end.
Proof.
  apply (redirect_only_run_outcome cycle_ab a_b).
  - intros k u; reflexivity.
  - intros k u; discriminate.
  - intros u; unfold a_b; destruct (String.eqb_spec u "A") as [->|Hu]; congruence.
Defined.

End FlowClaims.

(* ================================================================== *)
(** * More properties of [find_get_link] and its scans *)

Module ExtractMore.
Import Py Extract ExtractFacts.

Lemma blocks_nonempty p :
  List.Forall (fun o => forall h, o = Some h -> h <> EmptyString) (blocks p).
Proof.
  unfold blocks; repeat constructor; intros h E.
  - eapply guard_nonempty; [apply try_id_nonempty | exact E].
  - eapply guard_nonempty; [apply try_id_nonempty | exact E].
  - eapply guard_nonempty; [|exact E].
    unfold nonempty_res, try_class; res_unfold; intros h'.
    destruct (by_class p); [apply first_href_nonempty | discriminate].
  - eapply guard_nonempty; [|exact E].
    unfold nonempty_res, try_text; res_unfold; intros h'.
    destruct (by_text p); [apply text_scan_nonempty | discriminate].
  - eapply guard_nonempty; [apply try_anchors_nonempty | exact E].
Qed.

Lemma first_success_nonempty rs h :
  List.Forall (fun o => forall h, o = Some h -> h <> EmptyString) rs ->
  first_success rs = Some h -> h <> EmptyString.
Proof.
  induction 1 as [|o rs Ho _ IH]; simpl; [discriminate|].
  destruct o as [h'|]; [intros [= <-]; apply Ho; reflexivity | exact IH].
Qed.

Lemma find_get_link_some_nonempty p h :
  find_get_link p = Some h -> h <> EmptyString.
Proof.
  rewrite find_get_link_first_success; apply first_success_nonempty, blocks_nonempty.
Qed.

Lemma substring_sdrop n m s : substring n m s = substring 0 m (sdrop n s).
Proof.
  revert s; induction n as [|n IH]; intros [|c t]; try reflexivity.
  - destruct m; reflexivity.
  - apply IH.
Qed.

Lemma sdrop_len n s : String.length (sdrop n s) = (String.length s - n)%nat.
Proof.
  revert s; induction n as [|n IH]; intros [|c t]; simpl; try lia; apply IH.
Qed.

Lemma prefix_http4 x :
  String.prefix "http" x = true ->
  exists r, x = String "h"%char (String "t"%char (String "t"%char (String "p"%char r))).
Proof.
  intros H; apply String.prefix_correct in H.
  destruct x as [|c1 [|c2 [|c3 [|c4 r]]]]; simpl in H; try discriminate.
  injection H as -> -> -> ->; eauto.
Qed.

(** [find_from s q i] for a one-character [q] absent from ["http"], when
    the string at [i] begins with ["http"]: absent or at [i + 4] or later. *)
Lemma find_from_after_http s q r (i : nat) :
  sdrop i s = String "h"%char (String "t"%char (String "t"%char (String "p"%char r))) ->
  (forall x, String.prefix q (String "h"%char x) = false /\
             String.prefix q (String "t"%char x) = false /\
             String.prefix q (String "p"%char x) = false) ->
  find_from s q (Z.of_nat i) = -1 \/ (Z.of_nat i + 4 <= find_from s q (Z.of_nat i)).
Proof.
  intros Hd Hq; unfold find_from; rewrite Nat2Z.id, Hd; cbn [find_aux].
  destruct (Hq (String "t"%char (String "t"%char (String "p"%char r)))) as [-> _].
  cbn [find_aux]; destruct (Hq (String "t"%char (String "p"%char r))) as [_ [-> _]].
  cbn [find_aux]; destruct (Hq (String "p"%char r)) as [_ [-> _]].
  cbn [find_aux]; destruct (Hq r) as [_ [_ ->]].
  destruct (find_aux q r (S (S (S (S i))))) as [j|] eqn:E; [|auto].
  apply find_aux_ge in E; right; lia.
Qed.

Lemma rev_scan_app x y :
  rev_scan (x ++ y) = match rev_scan x with Ret None => rev_scan y | r => r end.
Proof.
  induction x as [|b x IH]; [reflexivity|].
  cbn [app rev_scan]; res_unfold.
  destruct (attr b "href") as [hb|]; [|reflexivity].
  destruct (text b) as [tb|]; [|reflexivity].
  destruct (String.eqb _ _); [exact IH|].
  destruct (_ || _ || _); [|exact IH].
  destruct (_ || _); [reflexivity | exact IH].
Qed.

(** X: the URL cut out of an [onclick] handler that mentions ["http"]
    starts with ["http"]: the cut starts at the first ["http"] and the
    closing quote searched for can only be found after those four
    characters. *)
Theorem onclick_url_starts_http (onclick : string) :
  contains "http" onclick = true -> startswith (onclick_url onclick) "http" = true.
Proof.
  unfold contains, onclick_url; intros Hc.
  destruct (find_aux "http" onclick 0) as [i|] eqn:E; [|discriminate].
  assert (Hst : find_from onclick "http" 0 = Z.of_nat i)
    by (unfold find_from; change (Z.to_nat 0) with O; cbn [sdrop]; rewrite E; reflexivity).
  rewrite Hst.
  apply find_aux_prefix in E as [_ Hp]; rewrite Nat.sub_0_r in Hp.
  apply prefix_http4 in Hp as [r Hd].
  assert (Hlen : (i + 4 <= String.length onclick)%nat).
  { pose proof (sdrop_len i onclick) as L; rewrite Hd in L; simpl in L; lia. }
  set (e1 := find_from onclick "'" (Z.of_nat i)).
  set (e2 := if Z.eqb e1 (-1) then find_from onclick dquote (Z.of_nat i) else e1).
  set (e3 := if Z.eqb e2 (-1) then len onclick else e2).
  assert (H1 : e1 = -1 \/ Z.of_nat i + 4 <= e1)
    by (apply (find_from_after_http onclick _ r); [exact Hd | intros x; repeat split]).
  assert (H2 : e2 = -1 \/ Z.of_nat i + 4 <= e2).
  { unfold e2; destruct (Z.eqb_spec e1 (-1)); [|destruct H1; [contradiction | auto]].
    apply (find_from_after_http onclick _ r); [exact Hd | intros x; repeat split]. }
  assert (H3 : Z.of_nat i + 4 <= e3).
  { unfold e3, len; destruct (Z.eqb_spec e2 (-1)); [lia|destruct H2; [contradiction | auto]]. }
  unfold slice; rewrite Nat2Z.id, substring_sdrop, Hd.
  replace (Z.to_nat e3 - i)%nat with (S (S (S (S (Z.to_nat e3 - i - 4))))) by lia.
  apply String.prefix_correct; simpl.
  destruct (substring 0 (Z.to_nat e3 - i - 4) r); reflexivity.
Qed.

Lemma onclick_url_starts_http_witness :
  contains "http" "go('http://x.io/a')" = true /\
  startswith (onclick_url "go('http://x.io/a')") "http" = true.
Proof.
  split; [reflexivity|].
  apply onclick_url_starts_http; reflexivity.
Defined.

(** X: the forward fallback over the anchors only returns an href that
    starts with ["http"] and is longer than 20 characters. *)
Theorem fwd_scan_long_http (anchors : list Elem) (h : string) :
  fwd_scan anchors = Ret (Some h) -> startswith h "http" = true /\ 20 < len h.
Proof.
  induction anchors as [|a rest IH]; simpl; res_unfold; [discriminate|].
  destruct (attr a "href") as [hr|]; [|discriminate].
  destruct (startswith (or_empty hr) "http" && Z.ltb 20 (len (or_empty hr))) eqn:E; [|exact IH].
  intros [= <-]; apply andb_true_iff in E as [E1 E2]; apply Z.ltb_lt in E2; auto.
Qed.

Lemma fwd_scan_long_http_witness :
  fwd_scan [Scenarios.anchor Scenarios.long_link EmptyString] = Ret (Some Scenarios.long_link) /\
  startswith Scenarios.long_link "http" = true /\ 20 < len Scenarios.long_link.
Proof.
  split; [reflexivity|].
  apply (fwd_scan_long_http [Scenarios.anchor Scenarios.long_link EmptyString]); reflexivity.
Defined.

(** X: the reverse pass over the anchors only returns a non-empty href
    mentioning ["telegram"], ["t.me"] or ["http"], taken from an anchor
    whose stripped, lowered text is non-empty. *)
Theorem rev_scan_result (anchors : list Elem) (h : string) :
  rev_scan anchors = Ret (Some h) ->
  h <> EmptyString /\
  (contains "telegram" h || contains "t.me" h || contains "http" h) = true /\
  exists a t, In a anchors /\ attr a "href" = Ret (Some h) /\ text a = Ret t /\
              lower (strip t) <> EmptyString.
Proof.
  induction anchors as [|a rest IH]; simpl; res_unfold; [discriminate|].
  destruct (attr a "href") as [hr|] eqn:Eh; [|discriminate].
  destruct (text a) as [t|] eqn:Et; [|discriminate].
  destruct (String.eqb_spec (or_empty hr) EmptyString) as [E|E].
  { intros H; destruct (IH H) as (H1 & H2 & b & tb & Hin & H3); split; [exact H1|].
    split; [exact H2|]; exists b, tb; split; [right; exact Hin | exact H3]. }
  destruct (contains "telegram" (or_empty hr) || contains "t.me" (or_empty hr)
            || contains "http" (or_empty hr)) eqn:Ek.
  2: { intros H; destruct (IH H) as (H1 & H2 & b & tb & Hin & H3); split; [exact H1|].
       split; [exact H2|]; exists b, tb; split; [right; exact Hin | exact H3]. }
  destruct (contains "get link" (lower (strip t)) ||
            negb (String.eqb (lower (strip t)) EmptyString)) eqn:Eg.
  2: { intros H; destruct (IH H) as (H1 & H2 & b & tb & Hin & H3); split; [exact H1|].
       split; [exact H2|]; exists b, tb; split; [right; exact Hin | exact H3]. }
  intros [= <-]; split; [exact E|]; split; [exact Ek|].
  exists a, t; split; [left; reflexivity|].
  destruct hr as [x|]; [|simpl in E; congruence].
  split; [rewrite Eh; reflexivity|]; split; [exact Et|].
  intros Hl; rewrite Hl in Eg; discriminate Eg.
Qed.

Lemma rev_scan_result_witness :
  rev_scan [Scenarios.anchor "https://t.me/c" "Go"] = Ret (Some "https://t.me/c") /\
  "https://t.me/c" <> EmptyString.
Proof.
  split; [reflexivity|].
  exact (proj1 (rev_scan_result [Scenarios.anchor "https://t.me/c" "Go"] "https://t.me/c"
                  eq_refl)).
Defined.

(** X: the reverse pass returns the href of the last qualifying anchor of
    the page: anchors after it that yield nothing, and anchors before it,
    even ones whose reads raise, do not change the result. *)
Theorem try_anchors_last_qualifying (p : Page) (l r : list Elem) (a : Elem) (h : string) :
  by_tag_a p = Ret (l ++ a :: r) ->
  rev_scan (rev r) = Ret None ->
  rev_scan [a] = Ret (Some h) ->
  try_anchors p = Ret (Some h).
Proof.
  intros Hp Hr Ha; unfold try_anchors; res_unfold; rewrite Hp.
  rewrite rev_app_distr; cbn [rev]; rewrite <- app_assoc.
  rewrite rev_scan_app, Hr, rev_scan_app, Ha; reflexivity.
Qed.

Lemma try_anchors_last_qualifying_witness :
  try_anchors
    {| by_id := Scenarios.no_such_id; by_class := Ret []; by_text := Ret [];
       by_tag_a := Ret [Scenarios.stale; Scenarios.anchor "http://x/a" "A";
                        Scenarios.anchor "/local" EmptyString] |} = Ret (Some "http://x/a").
Proof.
  apply (try_anchors_last_qualifying _ [Scenarios.stale] [Scenarios.anchor "/local" EmptyString]
           (Scenarios.anchor "http://x/a" "A")); reflexivity.
Defined.

End ExtractMore.

(* ================================================================== *)
(** * More properties of [wait_for_countdown_zero] *)

Module CountdownMore.
Import Py Countdown.

Lemma poll_loop_sleeps g t fuel n e lg sl :
  (sleeps (poll_loop g t fuel n e lg sl) <= sl + (t - e))%nat.
Proof.
  revert n e lg sl; induction fuel as [|f IH]; intros n e lg sl; simpl; [lia|].
  destruct (Nat.ltb_spec e t); simpl; [|lia].
  destruct (scan_selectors (poll g n) false lg) as [lg'|[|] lg']; simpl; [lia | | lia].
  specialize (IH (S n) (e + lookup_time g n + 1)%nat lg' (S sl)); lia.
Qed.

(** X: the detector never sleeps more than [timeout] times: every
    one-second sleep is followed by a time check against [timeout]. *)
Theorem countdown_sleeps_bounded (g : Gate) (timeout : nat) :
  (sleeps (wait_for_countdown_zero g timeout) <= timeout)%nat.
Proof.
  unfold wait_for_countdown_zero; pose proof (poll_loop_sleeps g timeout timeout 0 0 [] 0); lia.
Qed.

Lemma scan_elems_log els lg :
  match scan_elems els lg with
  | EReached lg' => exists l z, lg' = lg ++ l ++ [z] /\ all_pos l /\ z <= 0
  | EDone lg' => exists l, lg' = lg ++ l /\ all_pos l
  end.
Proof.
  revert lg; induction els as [|e els IH]; intros lg; simpl.
  - exists []; rewrite app_nil_r; split; [reflexivity | constructor].
  - destruct e as [raw|[| |]]; [| apply IH | exists []; rewrite app_nil_r; split; [reflexivity | constructor]
                                | exists []; rewrite app_nil_r; split; [reflexivity | constructor]].
    destruct (parse_countdown raw) as [num|]; [|apply IH].
    destruct (Z.leb num 0) eqn:Ez.
    + apply Z.leb_le in Ez; exists [], num; split; [reflexivity|]; split; [constructor | exact Ez].
    + apply Z.leb_gt in Ez; specialize (IH (lg ++ [num])).
      destruct (scan_elems els (lg ++ [num])) as [lg'|lg'].
      * destruct IH as (l & z & -> & Hl & Hz); exists (num :: l), z.
        split; [rewrite <- app_assoc; reflexivity|]; split; [constructor; [lia | exact Hl] | exact Hz].
      * destruct IH as (l & -> & Hl); exists (num :: l).
        split; [rewrite <- app_assoc; reflexivity|]; constructor; [lia | exact Hl].
Qed.

Lemma scan_selectors_log sels fa lg :
  match scan_selectors sels fa lg with
  | CReached lg' => exists l z, lg' = lg ++ l ++ [z] /\ all_pos l /\ z <= 0
  | CDone _ lg' => exists l, lg' = lg ++ l /\ all_pos l
  end.
Proof.
  revert fa lg; induction sels as [|r sels IH]; intros fa lg; simpl.
  - exists []; rewrite app_nil_r; split; [reflexivity | constructor].
  - destruct r as [[|e els]|e]; [apply IH | | apply IH].
    pose proof (scan_elems_log (e :: els) lg) as H.
    destruct (scan_elems (e :: els) lg) as [lg1|lg1]; [exact H|].
    destruct H as (l1 & -> & H1).
    specialize (IH true (lg ++ l1)).
    destruct (scan_selectors sels true (lg ++ l1)) as [lg2|fa2 lg2].
    + destruct IH as (l2 & z & -> & H2 & Hz); exists (l1 ++ l2), z.
      split; [rewrite <- !app_assoc; reflexivity|]; split; [apply Forall_app; split; assumption | exact Hz].
    + destruct IH as (l2 & -> & H2); exists (l1 ++ l2).
      split; [rewrite <- !app_assoc; reflexivity | apply Forall_app; split; assumption].
Qed.

Lemma poll_loop_log g t fuel n e lg sl :
  (waited (poll_loop g t fuel n e lg sl) = true ->
   exists l z, shown (poll_loop g t fuel n e lg sl) = lg ++ l ++ [z] /\ all_pos l /\ z <= 0) /\
  (waited (poll_loop g t fuel n e lg sl) = false ->
   exists l, shown (poll_loop g t fuel n e lg sl) = lg ++ l /\ all_pos l).
Proof.
  revert n e lg sl; induction fuel as [|f IH]; intros n e lg sl; simpl.
  { split; [discriminate | intros _; exists []; rewrite app_nil_r; split; [reflexivity | constructor]]. }
  destruct (e <? t)%nat; simpl.
  2: { split; [discriminate | intros _; exists []; rewrite app_nil_r; split; [reflexivity | constructor]]. }
  pose proof (scan_selectors_log (poll g n) false lg) as H.
  destruct (scan_selectors (poll g n) false lg) as [lg'|[|] lg']; simpl.
  - split; [intros _; exact H | discriminate].
  - destruct H as (l1 & -> & H1).
    destruct (IH (S n) (e + lookup_time g n + 1)%nat (lg ++ l1) (S sl)) as [I1 I2]; split.
    + intros Hw; destruct (I1 Hw) as (l2 & z & E & H2 & Hz); rewrite E; exists (l1 ++ l2), z.
      split; [rewrite <- !app_assoc; reflexivity|]; split; [apply Forall_app; split; assumption | exact Hz].
    + intros Hw; destruct (I2 Hw) as (l2 & E & H2); rewrite E; exists (l1 ++ l2).
      split; [rewrite <- !app_assoc; reflexivity | apply Forall_app; split; assumption].
  - split; [discriminate | intros _; exact H].
Qed.

(** X: the detector stops reading at the first number that is at most 0:
    when it returns [True], every number it logged before the last one is
    positive and the last one is at most 0; when it returns [False],
    every number it logged is positive. *)
Theorem countdown_stops_at_first_nonpositive (g : Gate) (timeout : nat) :
  (waited (wait_for_countdown_zero g timeout) = true ->
   exists l z, shown (wait_for_countdown_zero g timeout) = l ++ [z] /\ all_pos l /\ z <= 0) /\
  (waited (wait_for_countdown_zero g timeout) = false ->
   all_pos (shown (wait_for_countdown_zero g timeout))).
Proof.
  unfold wait_for_countdown_zero.
  destruct (poll_loop_log g timeout timeout 0 0 [] 0) as [H1 H2]; split.
  - intros Hw; exact (H1 Hw).
  - intros Hw; destruct (H2 Hw) as (l & -> & Hl); exact Hl.
Qed.

End CountdownMore.

(* ================================================================== *)
(** * More properties of the loop of [resolve_link_flow] *)

Module FlowMore.
Import Py Flow ExtractFacts.

Lemma count_say s l :
  count_opens (log (say s l)) =
    (count_opens (log s) + if is_open_line l then 1 else 0)%nat.
Proof.
  unfold count_opens; cbn [log say].
  rewrite List.filter_app, List.length_app; destruct l; simpl; lia.
Qed.

Lemma count_click c a b x : count_opens (log (click_log c a b x)) = count_opens (log x).
Proof. destruct c; cbn [click_log]; rewrite ?count_say; simpl; lia. Qed.

Lemma current_click c a b x : current_url (click_log c a b x) = current_url x.
Proof. destruct c; reflexivity. Qed.

Lemma visited_click c a b x : visited (click_log c a b x) = visited x.
Proof. destruct c; reflexivity. Qed.

Lemma final_click c a b x : final_link (click_log c a b x) = final_link x.
Proof. destruct c; reflexivity. Qed.

Lemma log_set_final s u : log (set_final s u) = log s.
Proof. reflexivity. Qed.

Lemma log_set_url s u : log (set_url s u) = log s.
Proof. reflexivity. Qed.

Lemma log_add_visited s u : log (add_visited s u) = log s.
Proof. reflexivity. Qed.

Ltac sess_simpl :=
  repeat (rewrite ?log_set_final, ?log_set_url, ?log_add_visited, ?count_say, ?count_click);
  cbn [say set_url set_final add_visited current_url visited
       final_link log is_open_line] in *.

(** What the part of a step after the first [find_get_link] does to the
    session, for each way it ends. *)
Lemma after_extraction_spec o clicked s :
  match after_extraction o clicked s with
  | Continue s' ByRedirect => False
  | Continue s' ByNext =>
      clicked = false /\ next_click o = true /\ current_url s' = current_url s /\
      visited s' = visited s /\ final_link s' = final_link s /\
      count_opens (log s') = count_opens (log s)
  | Continue s' ByProceed =>
      clicked = false /\ next_click o = false /\ proceed_click o = true /\
      current_url s' = current_url s /\
      visited s' = visited s /\ final_link s' = final_link s /\
      count_opens (log s') = count_opens (log s)
  | Continue s' ByFollow =>
      (exists txt, heuristic_follow (page o) = Ret (Some (current_url s', txt))) /\
      visited s' = visited s /\ final_link s' = final_link s /\
      count_opens (log s') = count_opens (log s)
  | Stop s' (Found c) =>
      final_link s' = Some c /\ c <> EmptyString /\ current_url s' = current_url s /\
      visited s' = visited s /\ count_opens (log s') = count_opens (log s)
  | Stop s' Fatal =>
      (exists e, heuristic_follow (page o) = Raise e) /\
      visited s' = visited s /\ final_link s' = final_link s /\
      count_opens (log s') = count_opens (log s)
  | Stop s' DeadEnd =>
      heuristic_follow (page o) = Ret None /\
      visited s' = visited s /\ final_link s' = final_link s /\
      count_opens (log s') = count_opens (log s)
  | Stop _ LoopDetected => False
  | Stop _ BudgetExhausted => False
  end.
Proof.
  unfold after_extraction.
  destruct (timer_text o) as [raw|e].
  - destruct (String.eqb (strip raw) "0" || String.eqb (strip raw) EmptyString).
    + destruct (truthy (Extract.find_get_link (timer_page o))) eqn:Et.
      * destruct (Extract.find_get_link (timer_page o)) as [c|] eqn:Ef; [|discriminate Et].
        sess_simpl; repeat split; try lia.
        eapply ExtractFacts.truthy_nonempty; [exact Et | reflexivity].
      * destruct clicked, (next_click o), (proceed_click o); cbn [negb andb];
          destruct (heuristic_follow (page o)) as [[[h t]|]|e] eqn:Eh;
          sess_simpl; repeat split; try lia; eauto.
    + destruct clicked, (next_click o), (proceed_click o); cbn [negb andb];
        destruct (heuristic_follow (page o)) as [[[h t]|]|e] eqn:Eh;
        sess_simpl; repeat split; try lia; eauto.
  - destruct clicked, (next_click o), (proceed_click o); cbn [negb andb];
      destruct (heuristic_follow (page o)) as [[[h t]|]|e'] eqn:Eh;
      sess_simpl; repeat split; try lia; eauto.
Qed.

(** What one step does to the session, for each way it ends. *)
Lemma step_spec o k s :
  match step o k s with
  | Continue s' ByRedirect =>
      exists u, nav o <> Raise OtherError /\ landed o = Ret u /\ u <> current_url s /\
      (u ∉ visited s) /\ current_url s' = u /\ visited s' = {[u]} ∪ visited s /\
      final_link s' = final_link s /\ count_opens (log s') = S (count_opens (log s))
  | Stop s' LoopDetected =>
      exists u, landed o = Ret u /\ u <> current_url s /\ u ∈ visited s /\
      current_url s' = u /\ visited s' = visited s /\
      final_link s' = final_link s /\ count_opens (log s') = S (count_opens (log s))
  | Stop s' (Found c) =>
      (forall u, landed o = Ret u -> u = current_url s) /\
      (Extract.find_get_link (page o) = Some c \/
       truthy (Extract.find_get_link (page o)) = false) /\
      final_link s' = Some c /\ c <> EmptyString /\ current_url s' = current_url s /\
      visited s' = visited s /\ count_opens (log s') = S (count_opens (log s))
  | Stop s' Fatal =>
      (nav o = Raise OtherError \/
       ((forall u, landed o = Ret u -> u = current_url s) /\
        truthy (Extract.find_get_link (page o)) = false /\
        exists e, heuristic_follow (page o) = Raise e)) /\
      visited s' = visited s /\ final_link s' = final_link s /\
      count_opens (log s') = S (count_opens (log s))
  | Stop s' DeadEnd =>
      (forall u, landed o = Ret u -> u = current_url s) /\
      truthy (Extract.find_get_link (page o)) = false /\
      heuristic_follow (page o) = Ret None /\
      visited s' = visited s /\ final_link s' = final_link s /\
      count_opens (log s') = S (count_opens (log s))
  | Continue s' ByNext =>
      nav o <> Raise OtherError /\ (forall u, landed o = Ret u -> u = current_url s) /\
      truthy (Extract.find_get_link (page o)) = false /\
      (did_click (verify_click o) || did_click (continue_click o)) = false /\
      next_click o = true /\ current_url s' = current_url s /\
      visited s' = visited s /\ final_link s' = final_link s /\
      count_opens (log s') = S (count_opens (log s))
  | Continue s' ByProceed =>
      nav o <> Raise OtherError /\ (forall u, landed o = Ret u -> u = current_url s) /\
      truthy (Extract.find_get_link (page o)) = false /\
      (did_click (verify_click o) || did_click (continue_click o)) = false /\
      next_click o = false /\ proceed_click o = true /\ current_url s' = current_url s /\
      visited s' = visited s /\ final_link s' = final_link s /\
      count_opens (log s') = S (count_opens (log s))
  | Continue s' ByFollow =>
      nav o <> Raise OtherError /\ (forall u, landed o = Ret u -> u = current_url s) /\
      truthy (Extract.find_get_link (page o)) = false /\
      (exists txt, heuristic_follow (page o) = Ret (Some (current_url s', txt))) /\
      visited s' = visited s /\ final_link s' = final_link s /\
      count_opens (log s') = S (count_opens (log s))
  | Stop _ BudgetExhausted => False
  end.
Proof.
  unfold step.
  destruct (nav o) as [[]|[| |]] eqn:En; cbv beta iota zeta.
  4: { sess_simpl; repeat split; try lia; left; reflexivity. }
  all: match goal with
       | |- context [click_log (continue_click ?o') "btn7" "continue_text" ?x] =>
           set (s2 := click_log (continue_click o') "btn7" "continue_text" x)
       end.
  all: assert (C : current_url s2 = current_url s /\ visited s2 = visited s /\
                   final_link s2 = final_link s /\
                   count_opens (log s2) = S (count_opens (log s)))
         by (unfold s2; rewrite current_click, visited_click, final_click, count_click;
             rewrite current_click, visited_click, final_click, count_click;
             destruct (countdown_waited o); sess_simpl; repeat split; lia).
  all: clearbody s2; destruct C as (C1 & C2 & C3 & C4).
  all: destruct (landed o) as [u|e] eqn:El;
    [destruct (String.eqb_spec u (current_url s2)) as [Eu|Eu]|]; cbv beta iota.
  all: try (case_bool_decide as Hin; sess_simpl;
            [exists u | exists u]; rewrite ?C1, ?C2, ?C3, ?C4 in *;
            repeat split; auto; try lia; try congruence; fail).
  all: assert (Hnr : forall v, landed o = Ret v -> v = current_url s)
         by (intros v Hv; rewrite El in Hv; first [discriminate Hv | injection Hv as <-; congruence]).
  all: rewrite <- El.
  all: destruct (truthy (Extract.find_get_link (page o))) eqn:Ef;
    [destruct (Extract.find_get_link (page o)) as [c|] eqn:Eg; [|discriminate Ef]|].
  all: try (cbv beta iota; sess_simpl; rewrite ?C1, ?C2, ?C3, ?C4; repeat split; auto; try lia;
            eapply ExtractFacts.truthy_nonempty; [exact Ef | reflexivity]).
  all: pose proof (after_extraction_spec o
          (did_click (verify_click o) || did_click (continue_click o)) s2) as A.
  all: destruct (after_extraction o _ s2) as [s' []|s' []]; try contradiction;
    destruct A as (A1 & A2); repeat split; try congruence; try lia; intuition congruence.
Qed.

Lemma follow_scan_marked anchors h txt :
  follow_scan anchors = Ret (Some (h, txt)) ->
  h <> EmptyString /\
  (contains "/readmore" h = true \/ contains "continue" h = true \/
   txt ∈ ["continue"; "read more"; "get link"; "get-link"]).
Proof.
  induction anchors as [|a rest IH]; simpl; res_unfold; [discriminate|].
  destruct (attr a "href") as [hr|]; [|discriminate].
  destruct (text a) as [t|]; [|discriminate].
  destruct (negb (String.eqb (or_empty hr) EmptyString) &&
            (contains "/readmore" (or_empty hr) || contains "continue" (or_empty hr) ||
             bool_decide (lower (strip t) ∈ ["continue"; "read more"; "get link"; "get-link"])))
    eqn:E; [|exact IH].
  intros [= <- <-].
  apply andb_true_iff in E as [E1 E2]; apply negb_true_iff, String.eqb_neq in E1.
  split; [exact E1|].
  apply orb_true_iff in E2 as [E2|E2]; [apply orb_true_iff in E2 as [E2|E2]|]; auto.
  right; right; apply bool_decide_eq_true in E2; exact E2.
Qed.

Lemma run_spec env fuel k s :
  final_link s = None ->
  match run_loop env fuel k s with
  | (o, s', n) =>
      (forall u, final_link s' = Some u <-> o = Found u) /\
      (forall u, final_link s' = Some u -> u <> EmptyString) /\
      (count_opens (log s') + k = count_opens (log s) + n)%nat /\
      (size (visited s') + k <= size (visited s) + n)%nat /\
      (o = LoopDetected -> current_url s' ∈ visited s')
  end.
Proof.
  revert k s; induction fuel as [|f IH]; intros k s Hf; simpl.
  - rewrite Hf; split; [intros u; split; discriminate|].
    split; [discriminate|]; split; [lia|]; split; [lia | discriminate].
  - pose proof (step_spec (env k (current_url s)) k s) as H.
    destruct (step (env k (current_url s)) k s) as [s' []|s' []].
    1-4:
      assert (Hx : final_link s' = None /\
                   (size (visited s') <= S (size (visited s)))%nat /\
                   count_opens (log s') = S (count_opens (log s)))
        by (repeat match goal with
                   | X : exists _, _ |- _ => destruct X
                   | X : _ /\ _ |- _ => destruct X
                   end;
            repeat split; try congruence;
            match goal with
            | X : visited ?a = {[?u]} ∪ visited ?b, Y : ?u ∉ visited ?b |- _ =>
                rewrite X, size_union, size_singleton; [lia | set_solver]
            | X : visited ?a = visited ?b |- _ => rewrite X; lia
            end);
      destruct Hx as (Hfl & Hv & Hc);
      specialize (IH (S k) s' Hfl);
      destruct (run_loop env f (S k) s') as [[o s''] n];
      destruct IH as (I1 & I2 & I3 & I4 & I5);
      refine (conj I1 (conj I2 (conj _ (conj _ I5)))); lia.
    all: repeat match goal with
           | X : exists _, _ |- _ => destruct X
           | X : _ /\ _ |- _ => destruct X
           end.
    all: repeat split; try lia; try congruence.
    all: try (intros ?; rewrite ?Hf in *; congruence).
    all: try (match goal with X : visited ?a = visited ?b |- _ => rewrite X; lia end).
    all: try (intros ?; congruence).
Qed.

(** X: [resolve_link_flow] returns [None] when ChromeDriver does not
    start; once it has started, it returns a link exactly when the run
    ends by finding one, and that link is never the empty string. *)
Theorem resolve_link_flow_result_found (env : Env) (start_url : string) (max_steps : nat) :
  (forall e, App.resolve_link_flow_result (Raise e) env start_url max_steps = None) /\
  match resolve_link_flow env start_url max_steps with
  | (o, _, _) =>
      forall u, App.resolve_link_flow_result (Ret tt) env start_url max_steps = Some u <->
                o = Found u /\ u <> EmptyString
  end.
Proof.
  split; [reflexivity|].
  unfold App.resolve_link_flow_result.
  pose proof (run_spec env max_steps 0 (init start_url) eq_refl) as H.
  unfold resolve_link_flow; destruct (run_loop env max_steps 0 (init start_url)) as [[o s] n].
  destruct H as (H1 & H2 & _).
  intros u; rewrite H1; split; [intros Ho; split; [exact Ho | apply H2, H1, Ho] | intros [Ho _]; exact Ho].
Qed.

(** X: the log of a run holds exactly one ["Step i: Opening ..."] line
    per step run. *)
Theorem log_one_open_per_step (env : Env) (start_url : string) (max_steps : nat) :
  match resolve_link_flow env start_url max_steps with
  | (_, s, n) => count_opens (log s) = n
  end.
Proof.
  pose proof (run_spec env max_steps 0 (init start_url) eq_refl) as H.
  unfold resolve_link_flow; destruct (run_loop env max_steps 0 (init start_url)) as [[o s] n].
  destruct H as (_ & _ & H & _); cbn [init log count_opens] in H; unfold count_opens in *;
    simpl in H; lia.
Qed.

(** X: a run adds at most one URL to [visited] per step: at the end,
    [visited] has no more elements than the number of steps run. *)
Theorem visited_at_most_steps (env : Env) (start_url : string) (max_steps : nat) :
  match resolve_link_flow env start_url max_steps with
  | (_, s, n) => (size (visited s) <= n)%nat
  end.
Proof.
  pose proof (run_spec env max_steps 0 (init start_url) eq_refl) as H.
  unfold resolve_link_flow; destruct (run_loop env max_steps 0 (init start_url)) as [[o s] n].
  destruct H as (_ & _ & _ & H & _); cbn [init visited] in H; rewrite size_empty in H; lia.
Qed.

(** X: a run that ends in [LoopDetected] ends on a URL that is in
    [visited], and returns no link. *)
Theorem loop_detected_on_visited (env : Env) (start_url : string) (max_steps : nat) :
  match resolve_link_flow env start_url max_steps with
  | (o, s, _) => o = LoopDetected -> current_url s ∈ visited s /\ final_link s = None
  end.
Proof.
  pose proof (run_spec env max_steps 0 (init start_url) eq_refl) as H.
  unfold resolve_link_flow; destruct (run_loop env max_steps 0 (init start_url)) as [[o s] n].
  destruct H as (H1 & _ & _ & _ & H5); intros Ho; split; [exact (H5 Ho)|].
  destruct (final_link s) as [u|] eqn:E; [|reflexivity].
  assert (o = Found u) by (apply H1; reflexivity); congruence.
Qed.

(** X: when the first page is not left by a redirect and
    [find_get_link] finds a link on it, the run stops at step 1 with that
    link, whatever the clicks, the timer and the fallbacks would do. *)
Theorem found_on_first_page (env : Env) (start_url : string) (max_steps : nat) (h : string) :
  (1 <= max_steps)%nat ->
  nav (env O start_url) <> Raise OtherError ->
  (forall u, landed (env O start_url) = Ret u -> u = start_url) ->
  Extract.find_get_link (page (env O start_url)) = Some h ->
  match resolve_link_flow env start_url max_steps with
  | (o, s, n) => o = Found h /\ final_link s = Some h /\ n = 1%nat /\ visited s = ∅
  end.
Proof.
  intros Hm Hn Hl Hf.
  destruct max_steps as [|m]; [lia|].
  unfold resolve_link_flow; cbn [run_loop]; cbn [current_url init].
  assert (Ht : truthy (Extract.find_get_link (page (env O start_url))) = true).
  { rewrite Hf; cbn [truthy]; apply negb_true_iff, String.eqb_neq.
    exact (ExtractMore.find_get_link_some_nonempty _ _ Hf). }
  pose proof (step_spec (env O start_url) O (init start_url)) as H.
  destruct (step (env O start_url) O (init start_url)) as [s' []|s' []];
    repeat match goal with
           | X : exists _, _ |- _ => destruct X
           | X : _ /\ _ |- _ => destruct X
           | X : _ \/ _ |- _ => destruct X
           end;
    cbn [current_url init visited final_link] in *; try congruence.
  all: try (repeat split; congruence).
  all: try contradiction.
  all: exfalso; match goal with Y : ~ _ |- _ => apply Y; apply Hl; assumption end.
Qed.

Lemma found_on_first_page_witness :
  match resolve_link_flow MoreScenarios.found_env "S" 12 with
  | (o, s, n) =>
      o = Found "https://t.me/examplechannel" /\
      final_link s = Some "https://t.me/examplechannel" /\ n = 1%nat /\ visited s = ∅
  end.
Proof.
  apply found_on_first_page;
    [lia | discriminate | intros u Hu; injection Hu as <-; reflexivity | reflexivity].
Defined.

(** X: a step that continues through the Next or Proceed fallback
    reopens the same URL with [visited] unchanged; it does so only when
    no redirect was seen, [find_get_link] found nothing and neither
    Verify nor Continue was clicked, Next being tried before Proceed. *)
Theorem fallback_reopens_same_url (o : StepObs) (k : nat) (s s' : Session) (r : cont_reason) :
  step o k s = Continue s' r -> r = ByNext \/ r = ByProceed ->
  current_url s' = current_url s /\ visited s' = visited s /\
  (did_click (verify_click o) || did_click (continue_click o)) = false /\
  truthy (Extract.find_get_link (page o)) = false /\
  (forall u, landed o = Ret u -> u = current_url s) /\
  (r = ByNext -> next_click o = true) /\
  (r = ByProceed -> next_click o = false /\ proceed_click o = true).
Proof.
  intros E Hr; pose proof (step_spec o k s) as H; rewrite E in H.
  destruct Hr as [->| ->];
    destruct H as (_ & Hl & Hf & Hc & H); repeat split; intuition (try discriminate).
Qed.

Lemma fallback_reopens_same_url_witness :
  current_url (session_of (step MoreScenarios.next_obs O (init "S"))) = "S".
Proof.
  exact (proj1 (fallback_reopens_same_url MoreScenarios.next_obs O (init "S")
                  (session_of (step MoreScenarios.next_obs O (init "S"))) ByNext
                  eq_refl (or_introl eq_refl))).
Defined.

(** X: a heuristic follow moves to the href of an anchor returned by the
    anchor pass: a non-empty href that contains ["/readmore"] or
    ["continue"], or whose anchor text is one of the four markers. *)
Theorem follow_target_marked (o : StepObs) (k : nat) (s s' : Session) :
  step o k s = Continue s' ByFollow ->
  current_url s' <> EmptyString /\
  exists txt, heuristic_follow (page o) = Ret (Some (current_url s', txt)) /\
    (contains "/readmore" (current_url s') = true \/
     contains "continue" (current_url s') = true \/
     txt ∈ ["continue"; "read more"; "get link"; "get-link"]).
Proof.
  intros E; pose proof (step_spec o k s) as H; rewrite E in H.
  destruct H as (_ & _ & _ & [txt Hh] & _).
  pose proof Hh as Hh'; unfold heuristic_follow in Hh'; res_unfold.
  destruct (by_tag_a (page o)) as [anchors|]; [|discriminate].
  apply follow_scan_marked in Hh' as [H1 H2].
  split; [exact H1|]; exists txt; split; [exact Hh | exact H2].
Qed.

Lemma follow_target_marked_witness :
  current_url (session_of (step (Scenarios.clicked_then_anchor O "S") O (init "S")))
    <> EmptyString.
Proof.
  exact (proj1 (follow_target_marked (Scenarios.clicked_then_anchor O "S") O (init "S")
                  (session_of (step (Scenarios.clicked_then_anchor O "S") O (init "S")))
                  eq_refl)).
Defined.

(** X: a step ends the run with an exception of the flow only when
    [driver.get] raises an exception other than a WebDriver one, or when
    no redirect was seen, [find_get_link] found nothing and the heuristic
    anchor pass raises (its anchor lookup or a read of an anchor, which
    no [try] guards); exceptions inside [find_get_link] never do. *)
Theorem fatal_sources (o : StepObs) (k : nat) (s s' : Session) :
  step o k s = Stop s' Fatal ->
  (nav o = Raise OtherError \/
   ((forall u, landed o = Ret u -> u = current_url s) /\
    truthy (Extract.find_get_link (page o)) = false /\
    exists e, heuristic_follow (page o) = Raise e)) /\
  final_link s' = final_link s.
Proof.
  intros E; pose proof (step_spec o k s) as H; rewrite E in H.
  destruct H as [H [_ [Hf _]]]; split; [exact H | exact Hf].
Qed.

Lemma fatal_sources_witness :
  heuristic_follow MoreScenarios.broken_anchors = Raise WebDriverError /\
  final_link (session_of (step (Scenarios.quiet MoreScenarios.broken_anchors (Ret "S") NoClick)
                            O (init "S"))) = None.
Proof.
  split; [reflexivity|].
  exact (proj2 (fatal_sources (Scenarios.quiet MoreScenarios.broken_anchors (Ret "S") NoClick)
                  O (init "S")
                  (session_of (step (Scenarios.quiet MoreScenarios.broken_anchors (Ret "S") NoClick)
                                O (init "S")))
                  eq_refl)).
Defined.

(** X: a step that sees the browser on a new URL never reads the page:
    its result does not depend on the page, the timer or the Next and
    Proceed buttons. *)
Theorem redirect_step_ignores_page (o : StepObs) (k : nat) (s : Session) (u : string)
    (p : Page) (tmr : res string) (tp : Page) (nc pc : bool) :
  nav o <> Raise OtherError -> landed o = Ret u -> u <> current_url s ->
  step {| nav := nav o; countdown_waited := countdown_waited o;
          verify_click := verify_click o; continue_click := continue_click o;
          landed := landed o; page := p; timer_text := tmr; timer_page := tp;
          next_click := nc; proceed_click := pc |} k s = step o k s.
Proof.
  intros Hn Hl Hu; unfold step;
    cbn [nav countdown_waited verify_click continue_click landed]; rewrite Hl.
  destruct (nav o) as [[]|[| |]]; [| | |contradiction]; cbv beta iota zeta;
    rewrite !current_click; destruct (countdown_waited o); cbn [say current_url];
    (destruct (String.eqb_spec u (current_url s)); [contradiction|]); reflexivity.
Qed.

Lemma redirect_step_ignores_page_witness :
  step {| nav := nav (Scenarios.cycle_ab O "A");
          countdown_waited := countdown_waited (Scenarios.cycle_ab O "A");
          verify_click := verify_click (Scenarios.cycle_ab O "A");
          continue_click := continue_click (Scenarios.cycle_ab O "A");
          landed := landed (Scenarios.cycle_ab O "A");
          page := Scenarios.two_controls; timer_text := Ret "0";
          timer_page := Scenarios.two_controls;
          next_click := true; proceed_click := true |} O (init "A") =
  step (Scenarios.cycle_ab O "A") O (init "A").
Proof.
  apply (redirect_step_ignores_page _ _ _ "B"); [discriminate | reflexivity | discriminate].
Defined.

End FlowMore.

(* ================================================================== *)
(** * Properties of the Tkinter entry points *)

Module AppMore.
Import Py Flow App.

Lemma lstrip_blank s : lstrip s = EmptyString <-> forallb is_space (list_ascii_of_string s) = true.
Proof.
  induction s as [|c t IH]; simpl; [tauto|].
  destruct (is_space c); simpl; [exact IH | split; discriminate].
Qed.

Lemma lstrip_head s c t : lstrip s = String c t -> is_space c = false.
Proof.
  induction s as [|d r IH]; simpl; [discriminate|].
  destruct (is_space d) eqn:Hd; [exact IH | intros [= <- _]; exact Hd].
Qed.

Lemma append_nil (y : string) : String.append EmptyString y = y.
Proof. reflexivity. Qed.

Lemma append_cons d (z y : string) : String.append (String d z) y = String d (String.append z y).
Proof. reflexivity. Qed.

Lemma rev_str_app x a b :
  rev_str x (String.append a b) = String.append (rev_str x a) b.
Proof.
  revert a; induction x as [|c t IH]; intros a; [reflexivity|].
  cbn [rev_str]; exact (IH (String c a)).
Qed.

Lemma rev_str_snoc w c acc :
  rev_str (String.append w (String c EmptyString)) acc = String c (rev_str w acc).
Proof.
  revert acc; induction w as [|d w IH]; intros acc; [reflexivity|].
  rewrite append_cons; cbn [rev_str]; apply IH.
Qed.

Lemma lstrip_snoc z c :
  is_space c = false ->
  exists w, lstrip (String.append z (String c EmptyString)) = String.append w (String c EmptyString).
Proof.
  intros Hc; induction z as [|d z IH].
  - rewrite append_nil; cbn [lstrip]; rewrite Hc; exists EmptyString; reflexivity.
  - rewrite append_cons; cbn [lstrip].
    destruct (is_space d); [exact IH | exists (String d z); reflexivity].
Qed.

(** [rstrip] keeps a non-space first character. *)
Lemma rstrip_head c t : is_space c = false -> exists r, rstrip (String c t) = String c r.
Proof.
  intros Hc; unfold rstrip; cbn [rev_str].
  change (String c EmptyString) with (String.append EmptyString (String c EmptyString)).
  rewrite rev_str_app.
  destruct (lstrip_snoc (rev_str t EmptyString) c Hc) as [w ->].
  rewrite rev_str_snoc; eauto.
Qed.

(** [rstrip] leaves a non-space last character, or nothing. *)
Lemma rstrip_last y :
  rstrip y = EmptyString \/
  exists w c, rstrip y = String.append w (String c EmptyString) /\ is_space c = false.
Proof.
  unfold rstrip; destruct (lstrip (rev_str y EmptyString)) as [|c t] eqn:E; [left; reflexivity|].
  right; exists (rev_str t EmptyString), c; split; [|exact (lstrip_head _ _ _ E)].
  cbn [rev_str].
  change (String c EmptyString) with (String.append EmptyString (String c EmptyString)).
  apply rev_str_app.
Qed.

(** X: [on_start] refuses an entry made only of whitespace (or empty) and
    starts a resolution otherwise, with the entry stripped: a non-empty
    URL whose first and last characters are not whitespace. *)
Theorem on_start_trims (entry : string) :
  (on_start entry = ShowError <-> forallb is_space (list_ascii_of_string entry) = true) /\
  (forall url, on_start entry = StartResolve url ->
     url = strip entry /\
     exists c1 t1 w c2, url = String c1 t1 /\ is_space c1 = false /\
                        url = String.append w (String c2 EmptyString) /\ is_space c2 = false).
Proof.
  unfold on_start, strip.
  destruct (lstrip entry) as [|c t] eqn:E.
  - cbn; split; [split; [intros _; apply lstrip_blank, E | reflexivity] | discriminate].
  - pose proof (lstrip_head _ _ _ E) as Hc.
    destruct (rstrip_head c t Hc) as [r Hr]; rewrite Hr; cbn [String.eqb].
    split.
    + split; [discriminate | intros H; apply lstrip_blank in H; congruence].
    + intros url [= <-]; split; [reflexivity|].
      destruct (rstrip_last (String c t)) as [H|(w & c2 & Hw & Hc2)]; [congruence|].
      exists c, r, w, c2; split; [reflexivity|]; split; [exact Hc|].
      split; [congruence | exact Hc2].
Qed.

(** X: what [_run_resolve] puts in the Final Link field, and so what Copy
    puts on the clipboard, is a link found by a run of at most 12 steps
    that ended by finding it; nothing is shown when ChromeDriver does not
    start or the run ends in any other way. *)
Theorem gui_shows_found_link (driver : res unit) (env : Env) (url : string) :
  match resolve_link_flow env url 12 with
  | (o, _, n) =>
      (n <= 12)%nat /\
      forall r, run_resolve driver env url = Some r <-> driver = Ret tt /\ o = Found r
  end /\
  (forall r, run_resolve driver env url = Some r -> copy_result r = Some r).
Proof.
  unfold run_resolve, resolve_link_flow_result, resolve_link_flow; cbv zeta.
  pose proof (FlowMore.run_spec env 12 0 (init url) eq_refl) as H.
  pose proof (FlowClaims.run_loop_steps env 12 0 (init url)) as Hn.
  destruct (run_loop env 12 0 (init url)) as [[o s] n].
  destruct H as (H1 & H2 & _).
  split.
  - split; [exact Hn|].
    intros r; destruct driver as [[]|e].
    + destruct (final_link s) as [u|] eqn:E.
      * pose proof (H2 u eq_refl) as Hu; apply String.eqb_neq in Hu.
        cbn [truthy]; rewrite Hu; cbn [negb].
        split; [intros [= <-]; split; [reflexivity | apply H1; reflexivity]
               | intros [_ Ho]; apply H1 in Ho; congruence].
      * split; [discriminate | intros [_ Ho]; apply H1 in Ho; discriminate].
    + split; [discriminate | intros [Hd _]; discriminate Hd].
  - intros r; destruct driver as [[]|e]; [|discriminate].
    destruct (truthy (final_link s)) eqn:Et; [|discriminate].
    intros Er; rewrite Er in Et; unfold copy_result.
    cbn [truthy] in Et; destruct (String.eqb r EmptyString); [discriminate | reflexivity].
Qed.

End AppMore.
